(** * osc-debugger: the send-side value inference, the send and monitor
      pumps, and the OSC message codec

    Shallow embedding of [src/send.ts], [src/monitor.ts],
    [src/createSocket.ts] and the port and target parsing of [src/index.ts].

    Conventions of the embedding.
    - A JavaScript string is a [string]; each character stands for one
      UTF-16 code unit in the range U+0000..U+00FF.
    - A JavaScript [number] is a binary64: the value of a finite one is kept
      as a rational and [round64] is the rounding to the nearest binary64 that
      the platform applies to what [parseInt] and [parseFloat] read.
    - An exception is a [Throw] carrying the message of the thrown [Error].
    - The [colors] decorations ([.red], [.yellow], ...) only wrap a text in
      terminal escape codes and are left out: a console call carries the
      undecorated text. *)

From Stdlib Require Import ZArith NArith QArith List Bool Lia.
From Stdlib.Strings Require Import String Ascii Byte.
From Stdlib Require Import DecimalString DecimalPos.
Import ListNotations.
Close Scope Q_scope.
Open Scope string_scope.

(* ================================================================== *)
(** * Part I: definitions *)
(* ================================================================== *)

(** ** Results of code that may throw *)

Inductive result (A : Type) : Type :=
| Ok (a : A)
| Throw (msg : string).
Arguments Ok {A} a.
Arguments Throw {A} msg.

Definition is_throw {A} (r : result A) : bool :=
  match r with Throw _ => true | Ok _ => false end.

(** ** JavaScript strings *)

Definition code (c : ascii) : N := N_of_ascii c.

(** [WhiteSpace] and [LineTerminator] code points below U+0100: what
    [String.prototype.trim] strips and what [\s] matches. *)
Definition is_ws (c : ascii) : bool :=
  ((9 <=? code c) && (code c <=? 13) || (code c =? 32) || (code c =? 160))%N.

Definition is_digit (c : ascii) : bool :=
  ((48 <=? code c) && (code c <=? 57))%N.

Definition is_quote (c : ascii) : bool := (code c =? 34)%N.
Definition is_dot (c : ascii) : bool := (code c =? 46)%N.

(** The one-character string made of a double quote. *)
Definition dq : string := String (ascii_of_N 34) EmptyString.

Definition is_empty (s : string) : bool :=
  match s with EmptyString => true | String _ _ => false end.

Fixpoint trimStart (s : string) : string :=
  match s with
  | String c r => if is_ws c then trimStart r else s
  | EmptyString => EmptyString
  end.

Fixpoint trimEnd (s : string) : string :=
  match s with
  | String c r =>
      let r' := trimEnd r in
      if is_ws c && is_empty r' then EmptyString else String c r'
  | EmptyString => EmptyString
  end.

(** [s.trim()] *)
Definition trim (s : string) : string := trimEnd (trimStart s).

(** [c.toLowerCase()] on one code unit below U+0100. *)
Definition lower_char (c : ascii) : ascii :=
  let n := code c in
  if ((65 <=? n) && (n <=? 90)
      || (192 <=? n) && (n <=? 222) && negb (n =? 215))%N
  then ascii_of_N (n + 32) else c.

Fixpoint toLowerCase (s : string) : string :=
  match s with
  | String c r => String (lower_char c) (toLowerCase r)
  | EmptyString => EmptyString
  end.

(** Whether [p] is a prefix of [s]. *)
Fixpoint is_prefix (p s : string) : bool :=
  match p, s with
  | EmptyString, _ => true
  | String a p', String b s' => Ascii.eqb a b && is_prefix p' s'
  | String _ _, EmptyString => false
  end.

(** [s.startsWith(p)] *)
Definition startsWith (s p : string) : bool := is_prefix p s.

(** [s.includes(p)] *)
Fixpoint includes (s p : string) : bool :=
  is_prefix p s ||
  match s with
  | String _ r => includes r p
  | EmptyString => false
  end.

Fixpoint contains_char (p : ascii -> bool) (s : string) : bool :=
  match s with
  | String c r => p c || contains_char p r
  | EmptyString => false
  end.

Fixpoint all_chars (p : ascii -> bool) (s : string) : bool :=
  match s with
  | String c r => p c && all_chars p r
  | EmptyString => true
  end.

(** A token: a non-empty string without white space. *)
Definition is_token (s : string) : bool :=
  negb (is_empty s) && all_chars (fun c => negb (is_ws c)) s.

(** A separator: a non-empty run of white space. *)
Definition is_separator (s : string) : bool :=
  negb (is_empty s) && all_chars is_ws s.

(** The text made of each token of [pieces] behind its separator. *)
Fixpoint spread (pieces : list (string * string)) : string :=
  match pieces with
  | [] => EmptyString
  | (sep, tok) :: r => sep ++ tok ++ spread r
  end.

(** A separator and the token behind it. *)
Definition is_piece (piece : string * string) : bool :=
  is_separator (fst piece) && is_token (snd piece).

(** [s.substring(a, b)]: both indices are clamped to the length and swapped
    when [a > b]. *)
Definition js_substring (s : string) (a b : nat) : string :=
  let a' := Nat.min a (length s) in
  let b' := Nat.min b (length s) in
  substring (Nat.min a' b') (Nat.max a' b' - Nat.min a' b') s.

(** [s.padEnd(n)] *)
Fixpoint spaces (n : nat) : string :=
  match n with O => EmptyString | S k => String " "%char (spaces k) end.

Definition padEnd (s : string) (n : nat) : string :=
  s ++ spaces (n - length s).

(** [parts.join(sep)] *)
Fixpoint join (sep : string) (l : list string) : string :=
  match l with
  | [] => EmptyString
  | [x] => x
  | x :: r => x ++ sep ++ join sep r
  end.

(** [s.split(/\s+/)]: the pieces between maximal runs of white space; a
    leading or trailing run leaves an empty first or last piece, and the
    empty string splits into one empty piece.  [cur] is the piece being read
    (reversed) and [in_ws] tells whether the previous character was white
    space. *)
Fixpoint split_ws_aux (cur : string) (in_ws : bool) (s : string) : list string :=
  match s with
  | EmptyString => [cur]
  | String c r =>
      if is_ws c then
        if in_ws then split_ws_aux cur true r
        else cur :: split_ws_aux EmptyString true r
      else split_ws_aux (cur ++ String c EmptyString) false r
  end.

Definition split_ws (s : string) : list string :=
  split_ws_aux EmptyString false s.

(** ** JavaScript numbers *)

(** A [number].  [Fin neg m] is the finite [(-1)^neg * m] with [m >= 0] in
    lowest terms; [Fin true 0] is the negative zero. *)
Inductive number : Type :=
| NaN
| Inf (neg : bool)
| Fin (neg : bool) (m : Q).

(** [Number.isNaN(x)] *)
Definition isNaN (x : number) : bool :=
  match x with NaN => true | _ => false end.

(** [m * 10^e] in lowest terms. *)
Definition decimal (m : N) (e : Z) : Q :=
  Qred (if (0 <=? e)%Z then Qmake (Z.of_N m * 10 ^ e) 1
        else Qmake (Z.of_N m) (Z.to_pos (10 ^ (- e)))).

Definition of_int (z : Z) : number :=
  Fin (z <? 0)%Z (decimal (Z.abs_N z) 0).

(** [2^e], for a negative [e] too. *)
Definition pow2 (e : Z) : Q :=
  if (0 <=? e)%Z then inject_Z (2 ^ e) else Qmake 1 (Z.to_pos (2 ^ (- e))).

(** The integer part of the binary logarithm of [a / b], for positive [a]
    and [b]. *)
Definition floor_log2 (a b : Z) : Z :=
  let l := (Z.log2 a - Z.log2 b)%Z in
  if (if (0 <=? l)%Z then (b * 2 ^ l <=? a)%Z else (b <=? a * 2 ^ (- l))%Z)
  then l else (l - 1)%Z.

(** The integer nearest to [a / b], the even one of two that are as near. *)
Definition round_half_even (a b : Z) : Z :=
  let q := (a / b)%Z in
  match (2 * (a mod b) ?= b)%Z with
  | Lt => q
  | Gt => (q + 1)%Z
  | Eq => if Z.even q then q else (q + 1)%Z
  end.

(** The binary64 nearest to [(-1)^neg * q], for [q >= 0], ties to even: a
    significand [m] of at most 53 bits and an exponent [e] of at least
    [-1074]; infinity from [2^1024] on. *)
Definition round64 (neg : bool) (q : Q) : number :=
  let a := Qnum q in
  let b := Zpos (Qden q) in
  if (a <=? 0)%Z then Fin neg (Qmake 0 1)
  else
    let e := Z.max (floor_log2 a b - 52) (-1074) in
    let m := if (0 <=? e)%Z then round_half_even a (b * 2 ^ e)
             else round_half_even (a * 2 ^ (- e)) b in
    if (0 <=? e)%Z && (2 ^ 1024 <=? m * 2 ^ e)%Z then Inf neg
    else Fin neg (Qred (Qmult (inject_Z m) (pow2 e))).

(** The longest prefix of [s] whose characters satisfy [p], and the rest. *)
Fixpoint span (p : ascii -> bool) (s : string) : string * string :=
  match s with
  | String c r =>
      if p c then let (a, b) := span p r in (String c a, b)
      else (EmptyString, s)
  | EmptyString => (EmptyString, EmptyString)
  end.

Definition digit_val (c : ascii) : N := (code c - 48)%N.

Fixpoint digits_val_from (acc : N) (ds : string) : N :=
  match ds with
  | String c r => digits_val_from (10 * acc + digit_val c) r
  | EmptyString => acc
  end.

(** The mathematical value of a string of decimal digits. *)
Definition digits_val (ds : string) : N := digits_val_from 0 ds.

(** An optional leading sign: whether it is [-], and the rest. *)
Definition read_sign (s : string) : bool * string :=
  match s with
  | String "-"%char r => (true, r)
  | String "+"%char r => (false, r)
  | _ => (false, s)
  end.

(** [parseInt(s, 10)] (ECMAScript [parseInt] with radix 10: leading white
    space is skipped, a sign is read, then the longest run of decimal digits;
    whatever follows is ignored; no digit gives [NaN]; the integer read is
    rounded to a binary64). *)
Definition parseInt10 (s : string) : number :=
  let (neg, r) := read_sign (trimStart s) in
  let (ds, _) := span is_digit r in
  if is_empty ds then NaN else round64 neg (decimal (digits_val ds) 0).

(** The [ExponentPart] of a [StrDecimalLiteral], when one starts [s]:
    [e] or [E], an optional sign and at least one digit. *)
Definition read_exponent (s : string) : Z :=
  match s with
  | String c r =>
      if ((code c =? 101) || (code c =? 69))%N then
        let (neg, r') := read_sign r in
        let (ds, _) := span is_digit r' in
        if is_empty ds then 0%Z
        else if neg then (- Z.of_N (digits_val ds))%Z
             else Z.of_N (digits_val ds)
      else 0%Z
  | EmptyString => 0%Z
  end.

(** [parseFloat(s)]: leading white space is skipped and the longest prefix
    that is a [StrDecimalLiteral] is converted, rounded to a binary64;
    whatever follows is ignored; no such prefix gives [NaN]. *)
Definition parseFloat (s : string) : number :=
  let (neg, r) := read_sign (trimStart s) in
  if is_prefix "Infinity" r then Inf neg
  else
    let (ip, r1) := span is_digit r in
    match r1 with
    | String "."%char r2 =>
        let (fp, r3) := span is_digit r2 in
        if is_empty ip && is_empty fp then NaN
        else round64 neg (decimal (digits_val (ip ++ fp))
                                  (read_exponent r3 - Z.of_nat (length fp)))
    | _ =>
        if is_empty ip then NaN
        else round64 neg (decimal (digits_val ip) (read_exponent r1))
    end.

(** ** [send.ts]: [parseInputValue] *)

(** [type ParsedValue = string | number] *)
Inductive ParsedValue : Type :=
| PString (s : string)
| PNumber (n : number).

(** The quoted-string test of [parseInputValue]: the regular expression
    anchored at both ends that reads a double quote, one or more characters
    other than a double quote, and a double quote. *)
Fixpoint rest_then_quote (r : string) : bool :=
  match r with
  | String c r' => if is_quote c then is_empty r' else rest_then_quote r'
  | EmptyString => false
  end.

Definition quoted_re (value : string) : bool :=
  match value with
  | String q (String c r) => is_quote q && negb (is_quote c) && rest_then_quote r
  | _ => false
  end.

(** [/\./.test(value)] *)
Definition dot_re (value : string) : bool := contains_char is_dot value.

(** [parseInputValue(value: string | undefined)]; [None] is [undefined]. *)
Definition parseInputValue (value : option string) : result ParsedValue :=
  match value with
  | None => Throw "Value cannot be empty"
  | Some value =>
      if is_empty value || is_empty (trim value) then
        Throw "Value cannot be empty"
      else if quoted_re value then
        Ok (PString (js_substring value 1 (length value - 1)))
      else if dot_re value then
        let floatValue := parseFloat value in
        if isNaN floatValue then Throw ("Invalid number: " ++ value)
        else Ok (PNumber floatValue)
      else
        let intValue := parseInt10 value in
        if isNaN intValue then Throw ("Invalid integer: " ++ value)
        else Ok (PNumber intValue)
  end.

(** ** Effects *)

(** A thrown or reported [Error]: its [message] and its [stack], if any. *)
Record Error : Type := mkError { message : string; stack : option string }.

(** What the program does to the outside world, in order.  [SocketSend] is
    the call of [socket.send]; whether the datagram leaves the machine is the
    outcome the callback later reports.  [ListeningBanner] is the line
    [createUdpSocket] logs when the socket listens, and [StartupBanner] the
    lines [monitor] logs once its handlers are attached. *)
Inductive Effect : Type :=
| ConsoleLog (text : string)
| ConsoleWarn (text : string)
| ConsoleError (text : string)
| ConsoleErrorValue (err : Error)
| ListeningBanner
| StartupBanner
| SocketSend (message : list byte) (port : Z) (address : string)
| SocketClose
| ProcessExit (status : Z).

Definition is_send (e : Effect) : bool :=
  match e with SocketSend _ _ _ => true | _ => false end.

Definition nl : string := String (ascii_of_N 10) EmptyString.

(** A port number [n] as the template literals print it. *)
Definition show_port (n : Z) : string := NilZero.string_of_int (Z.to_int n).

(** ** [send.ts]: the send pump *)

(** What [inquirer.prompt] gives back: the line typed, or an exception (the
    prompt throws when the operator closes it). *)
Inductive PromptOutcome : Type :=
| Answer (input : string)
| PromptThrows (msg : string).

(** The quit test of the loop on the trimmed input. *)
Definition is_quit (trimmedInput : string) : bool :=
  let low := toLowerCase trimmedInput in
  (low =? "q") || (low =? "quit") || (low =? "exit").

(** [parts[0]] and [parts.slice(1).join(' ')] of the loop. *)
Definition command_address (trimmedInput : string) : string :=
  hd EmptyString (split_ws trimmedInput).

Definition command_value (trimmedInput : string) : string :=
  join " " (tl (split_ws trimmedInput)).

(** What the [while (true)] loop does after one pass. *)
Inductive Control : Type := Continue | Exit.

Section SendPump.

(** [osc.toBuffer({address, args})] of the osc-min library. *)
Variable toBuffer : string -> list ParsedValue -> result (list byte).
(** [String(x)] for a number [x]. *)
Variable numberToString : number -> string.

Definition stringOfValue (v : ParsedValue) : string :=
  match v with PString s => s | PNumber n => numberToString n end.

(** [Number.isNaN(value as number)]: false for a string. *)
Definition valueIsNaN (v : ParsedValue) : bool :=
  match v with PString _ => false | PNumber n => isNaN n end.

(** [sendMessage(socket, message, port, address)].  [net] is what the
    callback of [socket.send] receives: [None] on success, the error's
    message otherwise. *)
Definition sendMessage (message : list byte) (port : Z) (address : string)
           (net : option string) : list Effect * result unit :=
  if ((port <? 1) || (port >? 65535))%Z then
    ([], Throw ("Invalid port number: " ++ show_port port))
  else
    ([SocketSend message port address],
     match net with Some msg => Throw msg | None => Ok tt end).

(** The [catch] clause of the loop body. *)
Definition on_loop_error (msg : string) : list Effect * Control :=
  if includes msg "User force closed" then
    ([ConsoleLog (nl ++ "Goodbye!"); ProcessExit 0], Exit)
  else
    ([ConsoleError ("Error sending message: " ++ msg)], Continue).

(** One pass of the loop body of [send]. *)
Definition iteration (port : Z) (receiverIp : string)
           (p : PromptOutcome) (net : option string) : list Effect * Control :=
  match p with
  | PromptThrows msg => on_loop_error msg
  | Answer input =>
      let trimmedInput := trim input in
      if is_quit trimmedInput then
        ([ConsoleLog (nl ++ "Goodbye!"); SocketClose; ProcessExit 0], Exit)
      else
        let oscAddress := command_address trimmedInput in
        if negb (startsWith oscAddress "/") then
          ([ConsoleError "OSC address must start with /"], Continue)
        else
          let rawValue := command_value trimmedInput in
          if is_empty rawValue then
            ([ConsoleError "Please provide a value"], Continue)
          else
            match parseInputValue (Some rawValue) with
            | Throw msg =>
                ([ConsoleError ("Error parsing value: " ++ msg)], Continue)
            | Ok value =>
                match toBuffer oscAddress
                               (if valueIsNaN value then [] else [value]) with
                | Throw msg => on_loop_error msg
                | Ok message =>
                    let (sent, r) := sendMessage message port receiverIp net in
                    match r with
                    | Throw msg =>
                        let (shown, c) := on_loop_error msg in
                        ((sent ++ shown)%list, c)
                    | Ok _ =>
                        ((sent ++ [ConsoleLog ("Sent: " ++ oscAddress ++ " = "
                                                ++ stringOfValue value)])%list,
                         Continue)
                    end
                end
            end
  end.

(** The loop, run on the prompt outcomes it will receive, each paired with
    the outcome of the send it may trigger. *)
Fixpoint send_loop (port : Z) (receiverIp : string)
         (inputs : list (PromptOutcome * option string))
  : list Effect * Control :=
  match inputs with
  | [] => ([], Continue)
  | (p, net) :: rest =>
      let (done, c) := iteration port receiverIp p net in
      match c with
      | Exit => (done, Exit)
      | Continue =>
          let (later, c') := send_loop port receiverIp rest in
          ((done ++ later)%list, c')
      end
  end.

(** The failures of one command that the loop reports: what makes each
    of them, and what the loop then does. *)
Inductive Failure : Type :=
| InvalidAddress
| MissingValue
| InvalidValue (msg : string)
| SendFailed (message : list byte) (err : string).

Definition fails (port : Z) (trimmedInput : string) (net : option string)
           (f : Failure) : Prop :=
  let oscAddress := command_address trimmedInput in
  let rawValue := command_value trimmedInput in
  match f with
  | InvalidAddress => startsWith oscAddress "/" = false
  | MissingValue => startsWith oscAddress "/" = true /\ rawValue = ""
  | InvalidValue msg =>
      startsWith oscAddress "/" = true /\ rawValue <> ""
      /\ parseInputValue (Some rawValue) = Throw msg
  | SendFailed message err =>
      startsWith oscAddress "/" = true
      /\ (exists value, parseInputValue (Some rawValue) = Ok value
                        /\ toBuffer oscAddress [value] = Ok message)
      /\ (1 <= port <= 65535)%Z
      /\ net = Some err
  end.

Definition report (port : Z) (receiverIp : string) (f : Failure)
  : list Effect :=
  match f with
  | InvalidAddress => [ConsoleError "OSC address must start with /"]
  | MissingValue => [ConsoleError "Please provide a value"]
  | InvalidValue msg => [ConsoleError ("Error parsing value: " ++ msg)]
  | SendFailed message err =>
      [SocketSend message port receiverIp;
       ConsoleError ("Error sending message: " ++ err)]
  end.

(** The message of a failed send that the [catch] clause takes for the
    operator closing the prompt. *)
Definition looks_like_forced_close (f : Failure) : bool :=
  match f with
  | SendFailed _ err => includes err "User force closed"
  | _ => false
  end.

End SendPump.

(** ** [monitor.ts] and [createSocket.ts]: the monitor pump *)

(** The values an argument decoded by osc-min may hold. *)
Inductive JsValue : Type :=
| JsUndefined
| JsNull
| JsBoolean (b : bool)
| JsNumber (n : number)
| JsString (s : string)
| JsBuffer (b : list byte).

(** [interface OscArgument { type?: string; value?: unknown }] *)
Record OscArgument : Type :=
  mkArg { arg_type : option string; arg_value : JsValue }.

(** [interface OscMessage { address: string; args?: OscArgument[] }]; at run
    time an element of [args] may be [null] or [undefined] ([None]) and the
    address may be missing. *)
Record OscMessage : Type :=
  mkMsg { msg_address : option string;
          msg_args : option (list (option OscArgument)) }.

(** A message with a usable address. *)
Definition usable (m : OscMessage) : bool :=
  match msg_address m with
  | Some address => negb (is_empty address)
  | None => false
  end.



(** What the message handler hands to the console for one datagram. *)
Inductive Notice : Type :=
| Decoded (line : string)
| NoAddress
| DecodeError (msg : string).

Definition render_notice (n : Notice) : list Effect :=
  match n with
  | Decoded line => [ConsoleLog line]
  | NoAddress => [ConsoleWarn "Received OSC message without address"]
  | DecodeError msg =>
      [ConsoleError "Error parsing OSC message:"; ConsoleError msg]
  end.

(** The state of a promise. *)
Inductive Promise : Type :=
| Pending
| Fulfilled
| Rejected (err : Error).

(** [resolve()] and [reject(err)] settle a pending promise and do nothing to
    a settled one. *)
Definition settle (p q : Promise) : Promise :=
  match p with Pending => q | _ => p end.

(** The monitor: whether its socket is open, the promise [createUdpSocket]
    returned, and the promise [monitor] returned to its caller.  The handlers
    of [monitor] are attached once the first promise is fulfilled. *)
Record Monitor : Type :=
  mkMonitor { socket_open : bool; created : Promise; returned : Promise }.

Definition is_fulfilled (p : Promise) : bool :=
  match p with Fulfilled => true | _ => false end.

Definition is_pending (p : Promise) : bool :=
  match p with Pending => true | _ => false end.

(** The pump is listening when its socket is open and its handlers are
    attached; it is stopped when the socket is closed. *)
Definition listening (m : Monitor) : bool :=
  socket_open m && is_fulfilled (created m).

Definition stopped (m : Monitor) : bool := negb (socket_open m).

(** The state right after [createSocket(port, address)] has called
    [udp.bind]. *)
Definition binding : Monitor := mkMonitor true Pending Pending.

(** What the socket emits. *)
Inductive SocketEvent : Type :=
| OnListening
| OnMessage (buffer : list byte)
| OnError (err : Error).

Section MonitorPump.

(** [osc.fromBuffer(buffer)] of the osc-min library. *)
Variable fromBuffer : list byte -> result OscMessage.
(** [String(x)] for a number and for a [Buffer]. *)
Variable numberToString : number -> string.
Variable bufferToString : list byte -> string.

(** [String(arg.value)] *)
Definition stringOfJs (v : JsValue) : string :=
  match v with
  | JsUndefined => "undefined"
  | JsNull => "null"
  | JsBoolean b => if b then "true" else "false"
  | JsNumber n => numberToString n
  | JsString s => s
  | JsBuffer b => bufferToString b
  end.

(** The callback of [argValues]. *)
Definition argValue (arg : option OscArgument) : string :=
  match arg with
  | None => "null"
  | Some a =>
      match arg_value a with
      | JsNull | JsUndefined => "null"
      | v => stringOfJs v
      end
  end.

(** The callback of [argTypes]: [arg.type || 'unknown']. *)
Definition argType (arg : option OscArgument) : string :=
  match arg with
  | None => "null"
  | Some a =>
      match arg_type a with
      | Some t => if is_empty t then "unknown" else t
      | None => "unknown"
      end
  end.

(** The body of the [try] block of the message handler, once the buffer
    is decoded. *)
Definition show_message (port : Z) (m : OscMessage) : Notice :=
  match msg_address m with
  | None => NoAddress
  | Some address =>
      if is_empty address then NoAddress
      else
        let head := "[" ++ show_port port ++ "] " ++ padEnd address 30 in
        match msg_args m with
        | Some (a :: r) =>
            Decoded (head ++ " " ++ join ", " (map argValue (a :: r))
                          ++ " (" ++ join ", " (map argType (a :: r)) ++ ")")
        | _ => Decoded (head ++ " (null)")
        end
  end.

(** [socket.on('message', ...)] *)
Definition on_message (port : Z) (buffer : list byte) : Notice :=
  match fromBuffer buffer with
  | Throw msg => DecodeError msg
  | Ok m => show_message port m
  end.

(** The [error] handler [createUdpSocket] attaches, up to its [reject]. *)
Definition on_error_createSocket (err : Error) : list Effect :=
  ([ConsoleError "Socket error:"; ConsoleErrorValue err]
   ++ match stack err with
    | Some s => if is_empty s then [] else [ConsoleError s]
    | None => []
    end
   ++ [SocketClose])%list.

(** The [error] handler [monitor] attaches. *)
Definition on_error_monitor (err : Error) : list Effect :=
  [ConsoleError "Socket error in monitor:"; ConsoleError (message err)].

(** The [catch] clause of [monitor], which runs when the awaited promise
    is rejected. *)
Definition on_start_failure (err : Error) : list Effect :=
  [ConsoleError ("Failed to start monitor: " ++ message err)].

(** One event of the socket.  A closed socket emits nothing more.  The
    handlers of an event run in the order they were attached:
    [createUdpSocket]'s first. *)
Definition monitor_step (port : Z) (m : Monitor) (ev : SocketEvent)
  : Monitor * list Effect :=
  if negb (socket_open m) then (m, [])
  else
    match ev with
    | OnListening =>
        if is_pending (created m) then
          (mkMonitor true Fulfilled (settle (returned m) Fulfilled),
           [ListeningBanner; StartupBanner])
        else (m, [ListeningBanner])
    | OnMessage buffer =>
        if is_fulfilled (created m) then
          (m, render_notice (on_message port buffer))
        else (m, [])
    | OnError err =>
        (mkMonitor false
                   (settle (created m) (Rejected err))
                   (if is_pending (created m)
                    then settle (returned m) (Rejected err)
                    else returned m),
         (on_error_createSocket err
          ++ (if is_pending (created m) then on_start_failure err else [])
          ++ (if is_fulfilled (created m) then on_error_monitor err else []))%list)
    end.

Fixpoint monitor_run (port : Z) (m : Monitor) (evs : list SocketEvent)
  : Monitor * list Effect :=
  match evs with
  | [] => (m, [])
  | ev :: rest =>
      let (m1, out1) := monitor_step port m ev in
      let (m2, out2) := monitor_run port m1 rest in
      (m2, (out1 ++ out2)%list)
  end.

(** The notices of a run of datagrams, one per datagram. *)
Definition notices (port : Z) (buffers : list (list byte)) : list Notice :=
  map (on_message port) buffers.

End MonitorPump.

(** ** The codec

    The program encodes with [osc.toBuffer] and decodes with
    [osc.fromBuffer] of the osc-min package, which is not among the sources;
    the pumps above take both as parameters.  The module below is the codec as
    the specification describes it (section 4.1, wire layout). *)

Module Codec.

Local Open Scope Z_scope.
Local Open Scope list_scope.

(** Modelled from the spec: the [Argument] of the data model, which the
    sources do not define.  [Float32] carries the 32 bits of the IEEE-754
    value; [Unknown] is the variant the decoder produces for a tag it does
    not recognise. *)
Inductive Argument : Type :=
| Int32 (i : Z)
| Float32 (bits : Z)
| OscString (text : string)
| Blob (bytes : list byte)
| Unknown (tag : byte).

(** Modelled from the spec: the [Message] of the data model. *)
Record Message : Type :=
  mkMessage { address : string; args : list Argument }.

(** Modelled from the spec: the [DecodeError] of [decode]. *)
Inductive DecodeError : Type :=
| Truncated
| MissingTerminator
| BadAddress
| BadTypeTags
| TrailingBytes.

Definition res (A : Type) : Type := (A + DecodeError)%type.
Definition ret {A} (a : A) : res A := inl a.
Definition fail {A} (e : DecodeError) : res A := inr e.
Definition bind {A B} (r : res A) (k : A -> res B) : res B :=
  match r with inl a => k a | inr e => inr e end.

Notation "x <- r ;; k" := (bind r (fun x => k))
  (at level 61, r at next level, right associativity).
Notation "' p <- r ;; k" := (bind r (fun x => let 'p := x in k))
  (at level 61, p pattern, r at next level, right associativity).

(** The byte of value [z mod 256], and the value of a byte. *)
Definition byte_of_Z (z : Z) : byte :=
  match Byte.of_N (Z.to_N (z mod 256)) with
  | Some b => b
  | None => x00
  end.

Definition Z_of_byte (b : byte) : Z := Z.of_N (Byte.to_N b).

Definition is_nul (b : byte) : bool := Byte.eqb b x00.

(** Modelled from the spec: the number of NUL bytes that bring a length
    [n] to a multiple of 4. *)
Definition padding (n : nat) : nat := ((4 - n mod 4) mod 4)%nat.

Definition nuls (n : nat) : list byte := repeat x00 n.

(** Modelled from the spec: a string on the wire is NUL-terminated, then
    padded with NUL bytes until its length, terminator included, is a
    multiple of 4. *)
Definition encode_string (s : list byte) : list byte :=
  s ++ x00 :: nuls (padding (S (List.length s))).

(** Modelled from the spec: 4 bytes, big-endian (two's complement for a
    negative [n]). *)
Definition encode_u32 (n : Z) : list byte :=
  [byte_of_Z (n / 16777216); byte_of_Z (n / 65536);
   byte_of_Z (n / 256); byte_of_Z n].

(** Modelled from the spec: the tag character of an argument. *)
Definition tag_of (a : Argument) : byte :=
  match a with
  | Int32 _ => "i"%byte
  | Float32 _ => "f"%byte
  | OscString _ => "s"%byte
  | Blob _ => "b"%byte
  | Unknown t => t
  end.

(** Modelled from the spec: the value of one argument on the wire.  An
    argument of unknown tag has no value bytes. *)
Definition encode_arg (a : Argument) : list byte :=
  match a with
  | Int32 i => encode_u32 i
  | Float32 bits => encode_u32 bits
  | OscString text => encode_string (list_byte_of_string text)
  | Blob bytes =>
      encode_u32 (Z.of_nat (List.length bytes))
      ++ bytes ++ nuls (padding (List.length bytes))
  | Unknown _ => []
  end.

(** Modelled from the spec: [encode(message) -> bytes]: the address, the
    type-tag string (a comma, then one tag per argument), then the values
    in order. *)
Definition encode (m : Message) : list byte :=
  encode_string (list_byte_of_string (address m))
  ++ encode_string (","%byte :: map tag_of (args m))
  ++ List.concat (map encode_arg (args m)).

(** The longest prefix of [l] without a NUL byte, and the rest. *)
Fixpoint until_nul (l : list byte) : list byte * list byte :=
  match l with
  | b :: r =>
      if is_nul b then ([], l)
      else let (s, t) := until_nul r in (b :: s, t)
  | [] => ([], [])
  end.

(** Modelled from the spec: one padded string read off the front of the
    buffer; a buffer without terminator or shorter than the padded length
    is rejected. *)
Definition decode_string (buf : list byte) : res (list byte * list byte) :=
  let (s, t) := until_nul buf in
  match t with
  | [] => fail MissingTerminator
  | _ :: _ =>
      let n := (S (List.length s) + padding (S (List.length s)))%nat in
      if (List.length buf <? n)%nat then fail Truncated
      else ret (s, skipn n buf)
  end.

(** Modelled from the spec: 4 bytes read big-endian off the front of the
    buffer. *)
Definition decode_u32 (buf : list byte) : res (Z * list byte) :=
  match buf with
  | b3 :: b2 :: b1 :: b0 :: r =>
      ret (Z_of_byte b3 * 16777216 + Z_of_byte b2 * 65536
           + Z_of_byte b1 * 256 + Z_of_byte b0, r)
  | _ => fail Truncated
  end.

(** The signed reading of 32 bits. *)
Definition to_signed (u : Z) : Z :=
  if u <? 2147483648 then u else u - 4294967296.

(** Modelled from the spec: the value of one argument of tag [t] read off
    the front of the buffer; a tag that is not one of [i], [f], [s], [b]
    gives [Unknown t] and reads nothing. *)
Definition decode_arg (t : byte) (buf : list byte)
  : res (Argument * list byte) :=
  match t with
  | "i"%byte => '(u, r) <- decode_u32 buf ;; ret (Int32 (to_signed u), r)
  | "f"%byte => '(u, r) <- decode_u32 buf ;; ret (Float32 u, r)
  | "s"%byte =>
      '(s, r) <- decode_string buf ;; ret (OscString (string_of_list_byte s), r)
  | "b"%byte =>
      '(u, r) <- decode_u32 buf ;;
      let n := Z.to_nat u in
      if (List.length r <? n + padding n)%nat then fail Truncated
      else ret (Blob (firstn n r), skipn (n + padding n) r)
  | _ => ret (Unknown t, buf)
  end.

(** Modelled from the spec: the values of the arguments, in the order of
    their tags. *)
Fixpoint decode_args (tags : list byte) (buf : list byte)
  : res (list Argument * list byte) :=
  match tags with
  | [] => ret ([], buf)
  | t :: ts =>
      '(a, r) <- decode_arg t buf ;;
      '(l, r') <- decode_args ts r ;;
      ret (a :: l, r')
  end.

(** Modelled from the spec: [decode(bytes) -> Result<Message, DecodeError>].
    The leading string must start with a slash, the type-tag string with a
    comma, and the arguments must use up the buffer. *)
Definition decode (buf : list byte) : res Message :=
  '(a, r) <- decode_string buf ;;
  match a with
  | "/"%byte :: _ =>
      '(tags, r') <- decode_string r ;;
      match tags with
      | ","%byte :: ts =>
          '(l, rest) <- decode_args ts r' ;;
          match rest with
          | [] => ret (mkMessage (string_of_list_byte a) l)
          | _ :: _ => fail TrailingBytes
          end
      | _ => fail BadTypeTags
      end
  | _ => fail BadAddress
  end.

Definition no_nul (s : string) : bool :=
  forallb (fun b => negb (is_nul b)) (list_byte_of_string s).

(** Modelled from the spec: the invariants of an [Argument] that can be
    encoded: an [i32], an [f32] (32 bits), a text without NUL byte, a blob
    whose length fits the 4-byte prefix. *)
Definition valid_arg (a : Argument) : bool :=
  match a with
  | Int32 i => (-2147483648 <=? i) && (i <? 2147483648)
  | Float32 bits => (0 <=? bits) && (bits <? 4294967296)
  | OscString text => no_nul text
  | Blob bytes => Z.of_nat (List.length bytes) <? 4294967296
  | Unknown _ => false
  end.

(** Modelled from the spec: the invariant of a [Message]: the address is
    not empty, begins with a slash and holds no NUL byte. *)
Definition valid (m : Message) : bool :=
  startsWith (address m) "/" && no_nul (address m)
  && forallb valid_arg (args m).


End Codec.

(** ** Vocabulary of the statements and sample instances *)

(** Whether [s] is empty or starts with a character outside [p]. *)
Definition starts_outside (p : ascii -> bool) (s : string) : bool :=
  match s with String c _ => negb (p c) | EmptyString => true end.

(** The tokens, each behind a single space. *)
Definition single_spaced (tokens : list string) : list (string * string) :=
  map (fun w => (" ", w)) tokens.

(** An encoder and a printer to run the pumps on concrete commands: the
    encoder keeps the address only. *)
Definition address_only (address : string) (args : list ParsedValue)
  : result (list byte) := Ok (list_byte_of_string address).

Definition no_digits (n : number) : string := "#".

(** An encoder that keeps the address and the strings of the arguments,
    with commas between them. *)
Definition address_and_strings (address : string) (args : list ParsedValue)
  : result (list byte) :=
  Ok (list_byte_of_string
        (join "," (address :: map (fun v => match v with
                                            | PString s => s
                                            | PNumber _ => "#"
                                            end) args))).

(** A decoder to run the monitor on concrete datagrams: a buffer that
    starts with a slash decodes to a message whose second argument is
    absent, any other buffer is malformed. *)
Definition sample_decoder (buffer : list byte) : result OscMessage :=
  match buffer with
  | "/"%byte :: _ =>
      Ok (mkMsg (Some "/a")
                (Some [Some (mkArg (Some "integer") (JsNumber (of_int 1)));
                       None]))
  | _ => Throw "Malformed Packet"
  end.

Definition sample_text (b : list byte) : string := string_of_list_byte b.


Definition listening_monitor : Monitor := mkMonitor true Fulfilled Fulfilled.

(** ** [send.ts]: the validation of the command prompt *)

(** What a [validate] callback of a prompt returns: [true], or the text shown
    to the operator. *)
Inductive Validation : Type :=
| Valid
| Invalid (text : string).

(** The [validate] callback of the command prompt of [send]. *)
Definition command_validate (value : string) : Validation :=
  if is_empty value || is_empty (trim value) then
    Invalid "Input cannot be empty"
  else
    let trimmed := toLowerCase (trim value) in
    if (trimmed =? "q") || (trimmed =? "quit") || (trimmed =? "exit") then Valid
    else
      let parts := split_ws (trim value) in
      if (List.length parts <? 1)%nat then
        Invalid "Please provide an OSC address"
      else if negb (startsWith (hd EmptyString parts) "/") then
        Invalid "OSC address must start with /"
      else Valid.

(** A sign character. *)
Definition is_sign (c : ascii) : bool :=
  ((code c =? 43) || (code c =? 45))%N.

(** A character that starts neither white space, nor a quoted string, nor a
    number. *)
Definition is_bare (c : ascii) : bool :=
  negb (is_ws c || is_digit c || is_quote c || is_dot c || is_sign c).

(** [osc.toBuffer] called with exactly one argument, as the only use. *)
Definition with_one_argument
           (toBuffer : string -> list ParsedValue -> result (list byte))
           (address : string) (args : list ParsedValue) : result (list byte) :=
  match args with
  | [v] => toBuffer address [v]
  | _ => Throw "not called"
  end.

(** An effect that is no send, or a send to the given port and host. *)
Definition aims_at (port : Z) (host : string) (e : Effect) : Prop :=
  match e with
  | SocketSend _ p a => p = port /\ a = host
  | _ => True
  end.

Definition is_exit (e : Effect) : bool :=
  match e with ProcessExit _ => true | _ => false end.

Definition is_close (e : Effect) : bool :=
  match e with SocketClose => true | _ => false end.

(** ** [createSocket.ts] and [monitor.ts]: starting the monitor *)

(** [port < 1 || port > 65535] *)
Definition port_invalid (port : Z) : bool := ((port <? 1) || (port >? 65535))%Z.

Definition invalid_port_text (port : Z) : string :=
  "Invalid port number: " ++ show_port port
  ++ ". Port must be between 1 and 65535.".

(** [createUdpSocket(port, address)] up to its return: whether the socket
    is open, the state of the promise, and the effects.  [trace] is the stack
    the platform gives a new [Error], and [bind_throws] what [udp.bind]
    throws, if it throws.  Without a port the socket is not bound and the
    promise is fulfilled at once. *)
Definition createUdpSocket (port : option Z) (trace : option string)
           (bind_throws : option Error) : bool * Promise * list Effect :=
  match port with
  | Some p =>
      if port_invalid p then
        (false, Rejected (mkError (invalid_port_text p) trace), [SocketClose])
      else
        match bind_throws with
        | Some err => (false, Rejected err, [SocketClose])
        | None => (true, Pending, [])
        end
  | None => (true, Fulfilled, [])
  end.

(** [monitor({port, address})] up to the first event of the socket.  With an
    invalid port no socket is created: none is open and the promise of
    [createUdpSocket] does not exist (it is shown as pending). *)
Definition monitor_start (port : Z) (trace : option string)
           (bind_throws : option Error) : Monitor * list Effect :=
  if port_invalid port then
    let err := mkError (invalid_port_text port) trace in
    (mkMonitor false Pending (Rejected err), on_start_failure err)
  else
    let '(open, created, done) := createUdpSocket (Some port) trace bind_throws in
    match created with
    | Rejected err =>
        (mkMonitor open created (Rejected err), (done ++ on_start_failure err)%list)
    | Fulfilled =>
        (mkMonitor open Fulfilled Fulfilled, (done ++ [StartupBanner])%list)
    | Pending => (mkMonitor open Pending Pending, done)
    end.

(** What links the socket and the two promises of a monitor at any time. *)
Definition consistent (m : Monitor) : Prop :=
  match returned m with
  | Rejected _ => socket_open m = false
  | Fulfilled => created m = Fulfilled
  | Pending => created m = Pending /\ socket_open m = true
  end.

(** ** [index.ts]: ports and targets *)

(** The number [(-1)^neg * m] as a rational. *)
Definition value_of (neg : bool) (m : Q) : Q := if neg then Qopp m else m.

(** [a < b] on numbers: false as soon as one of them is [NaN]. *)
Definition num_ltb (a b : number) : bool :=
  match a, b with
  | NaN, _ | _, NaN => false
  | Inf true, Inf true => false
  | Inf true, _ => true
  | Inf false, _ => false
  | Fin _ _, Inf neg => negb neg
  | Fin n1 m1, Fin n2 m2 =>
      negb (Qle_bool (value_of n2 m2) (value_of n1 m1))
  end.

(** [Number.isNaN(port) || port < 1 || port > 65535] *)
Definition port_out_of_range (port : number) : bool :=
  isNaN port || num_ltb port (of_int 1) || num_ltb (of_int 65535) port.

(** [s.split(sep)] for a separator of one character: the pieces between the
    separators, empty ones included. *)
Fixpoint split_on_aux (sep : ascii) (cur s : string) : list string :=
  match s with
  | EmptyString => [cur]
  | String c r =>
      if Ascii.eqb c sep then cur :: split_on_aux sep EmptyString r
      else split_on_aux sep (cur ++ String c EmptyString) r
  end.

Definition split_on (sep : ascii) (s : string) : list string :=
  split_on_aux sep EmptyString s.

Definition is_colon (c : ascii) : bool := Ascii.eqb c ":".

Fixpoint count_char (p : ascii -> bool) (s : string) : nat :=
  match s with
  | String c r => (if p c then 1 else 0) + count_char p r
  | EmptyString => 0
  end.

(** [{ address: string; port: number }] *)
Record Target : Type := mkTarget { target_address : string; target_port : number }.

(** [parseAddressPort(target)]; [None] is [null]. *)
Definition parseAddressPort (target : string) : option Target :=
  match split_on ":" target with
  | [a; p] =>
      let port := parseInt10 p in
      if port_out_of_range port then None else Some (mkTarget a port)
  | [p] =>
      let port := parseInt10 p in
      if port_out_of_range port then None else Some (mkTarget "0.0.0.0" port)
  | _ => None
  end.

(** The [filter] and the [validate] callbacks of the port prompts. *)
Definition port_filter (value : string) : result number :=
  let portNum := parseInt10 value in
  if port_out_of_range portNum then
    Throw "Port must be a number between 1 and 65535"
  else Ok portNum.

Definition port_validate (value : string) : Validation :=
  let portNum := parseInt10 value in
  if isNaN portNum then Invalid "Port must be a valid number"
  else if num_ltb portNum (of_int 1) || num_ltb (of_int 65535) portNum then
    Invalid "Port must be between 1 and 65535"
  else Valid.

(** ** [send.ts]: the validation of the receiver address *)

Definition in_range (lo hi : N) (c : ascii) : bool :=
  ((lo <=? code c) && (code c <=? hi))%N.

Definition is_char (n : N) (c : ascii) : bool := (code c =? n)%N.

(** A backtracking matcher in the shape of the regular expression: each
    piece takes what is to be matched behind it as [k], and an alternative or
    an optional piece tries its branches in order.  [one p k] reads one
    character of the class [p], [opt p k] reads it if it can and goes on
    without it otherwise. *)
Definition one (p : ascii -> bool) (k : string -> bool) (s : string) : bool :=
  match s with
  | String c r => p c && k r
  | EmptyString => false
  end.

Definition opt (p : ascii -> bool) (k : string -> bool) (s : string) : bool :=
  one p k s || k s.

(** [(?:25[0-5]|2[0-4][0-9]|[01]?[0-9][0-9]?)] *)
Definition octet (k : string -> bool) (s : string) : bool :=
  one (is_char 50) (one (is_char 53) (one (in_range 48 53) k)) s
  || one (is_char 50) (one (in_range 48 52) (one is_digit k)) s
  || opt (in_range 48 49) (one is_digit (opt is_digit k)) s.

(** [ipRegex.test(value)]: three times an octet and a dot, then an octet,
    between the start and the end of the text. *)
Definition ipRegex (value : string) : bool :=
  octet (one is_dot
    (octet (one is_dot
      (octet (one is_dot
        (octet is_empty)))))) value.

(** The [validate] callback of the prompt for the receiver address. *)
Definition ip_validate (value : string) : Validation :=
  if is_empty value || is_empty (trim value) then
    Invalid "IP address cannot be empty"
  else if negb (ipRegex value) && negb (value =? "0.0.0.0")
          && negb (value =? "localhost") then
    Invalid "Please enter a valid IP address"
  else Valid.

(** One to three decimal digits that denote at most 255. *)
Definition is_octet_text (o : string) : bool :=
  negb (is_empty o) && all_chars is_digit o
  && (length o <=? 3)%nat && (digits_val o <=? 255)%N.

Definition dotted (a b c d : string) : string :=
  a ++ "." ++ b ++ "." ++ c ++ "." ++ d.

(** ** The monitor with a log file: the time stamp of a record *)

(** What the handler reads off [new Date()]: [getFullYear()], [getMonth()]
    (from 0), [getDate()], [getHours()], [getMinutes()], [getSeconds()] and
    [getMilliseconds()]. *)
Record Instant : Type :=
  mkInstant { t_year : Z; t_month : Z; t_date : Z; t_hours : Z;
              t_minutes : Z; t_seconds : Z; t_milliseconds : Z }.

Fixpoint zeros (n : nat) : string :=
  match n with O => EmptyString | S k => String "0"%char (zeros k) end.

(** [s.padStart(n, '0')] *)
Definition padStart0 (s : string) (n : nat) : string :=
  zeros (n - length s) ++ s.

(** [String(x).padStart(2, '0')] *)
Definition two_digits (x : Z) : string := padStart0 (show_port x) 2.

(** [String(now.getMilliseconds() * 1000).padStart(6, '0')] *)
Definition microseconds (ms : Z) : string := padStart0 (show_port (ms * 1000)) 6.

(** The time stamp of a record, [YYYY-MM-DD HH:MM:SS.microseconds]. *)
Definition timestamp (now : Instant) : string :=
  show_port (t_year now) ++ "-" ++ two_digits (t_month now + 1) ++ "-"
  ++ two_digits (t_date now) ++ " " ++ two_digits (t_hours now) ++ ":"
  ++ two_digits (t_minutes now) ++ ":" ++ two_digits (t_seconds now) ++ "."
  ++ microseconds (t_milliseconds now).

(** The integers from [lo], [len] of them. *)
Definition Z_range (lo : Z) (len : nat) : list Z :=
  map (fun i => (lo + Z.of_nat i)%Z) (seq 0 len).

(* ================================================================== *)
(** * Part II: properties *)
(* ================================================================== *)

(** ** Strings *)

Lemma append_nil_r (s : string) : s ++ "" = s.
Proof. induction s as [|c s IH]; simpl; [reflexivity | now rewrite IH]. Qed.

Lemma append_assoc (a b c : string) : (a ++ b) ++ c = a ++ b ++ c.
Proof. induction a as [|x a IH]; simpl; [reflexivity | now rewrite IH]. Qed.

Lemma length_append (a b : string) : length (a ++ b) = length a + length b.
Proof. induction a as [|x a IH]; simpl; [reflexivity | now rewrite IH]. Qed.

Lemma substring_prefix (a b : string) : substring 0 (length a) (a ++ b) = a.
Proof.
  induction a as [|x a IH]; simpl.
  - now destruct b.
  - now rewrite IH.
Qed.

Lemma is_empty_append (a b : string) :
  is_empty (a ++ b) = is_empty a && is_empty b.
Proof. now destruct a. Qed.

Lemma starts_with_slash (s : string) :
  startsWith s "/" = true -> exists r, s = String "/"%char r.
Proof.
  unfold startsWith. destruct s as [|c r]; cbn [is_prefix]; [discriminate|].
  destruct (Ascii.eqb_spec "/" c) as [<-|]; [eauto | discriminate].
Qed.

(** Trimming leaves alone a text that neither starts nor ends with white
    space. *)
Lemma trimEnd_no_ws (w : string) :
  all_chars (fun c => negb (is_ws c)) w = true -> trimEnd w = w.
Proof.
  induction w as [|c w IH]; simpl; [reflexivity|].
  intros [Hc Hw]%andb_true_iff. rewrite (IH Hw).
  apply negb_true_iff in Hc. now rewrite Hc.
Qed.

Lemma trimEnd_nonempty (c : ascii) (s : string) :
  is_ws c = false -> exists r, trimEnd (String c s) = String c r.
Proof. intros H. simpl. rewrite H. simpl. eauto. Qed.

Lemma trimEnd_append_token (s w : string) :
  is_token w = true -> trimEnd (s ++ w) = s ++ w.
Proof.
  intros [Hne Hw]%andb_true_iff.
  induction s as [|c s IH]; simpl.
  - now apply trimEnd_no_ws.
  - rewrite IH, is_empty_append.
    destruct w; [discriminate|]. simpl.
    now rewrite !andb_false_r.
Qed.

Lemma trimStart_token (w r : string) :
  is_token w = true -> trimStart (w ++ r) = w ++ r.
Proof.
  destruct w as [|c w]; [discriminate|]. unfold is_token. simpl.
  intros [Hc _]%andb_true_iff. apply negb_true_iff in Hc. now rewrite Hc.
Qed.

(** ** Rounding to binary64 *)

Lemma Qred_integer (z : Z) : Qred (Qmake z 1) = Qmake z 1.
Proof.
  unfold Qred.
  pose proof (Z.ggcd_gcd z 1) as Hg.
  pose proof (Z.ggcd_correct_divisors z 1) as Hd.
  destruct (Z.ggcd z 1) as [g [aa bb]]. simpl in *.
  rewrite Z.gcd_1_r in Hg. subst g. destruct Hd as [Ha Hb].
  rewrite Z.mul_1_l in Ha, Hb. now subst.
Qed.

Lemma decimal_of_integer (n : N) : decimal n 0 = Qmake (Z.of_N n) 1.
Proof.
  unfold decimal. cbn [Z.leb Z.compare Z.pow]. rewrite Z.mul_1_r.
  apply Qred_integer.
Qed.

Lemma round_half_even_whole (a : Z) : round_half_even a 1 = a.
Proof.
  unfold round_half_even. rewrite Z.mod_1_r, Z.div_1_r. reflexivity.
Qed.

Lemma round_half_even_lower (a b : Z) : (a / b <= round_half_even a b)%Z.
Proof.
  unfold round_half_even. destruct (_ ?= _)%Z; [destruct (Z.even _)| |]; lia.
Qed.

Lemma floor_log2_integer (n : Z) : (0 < n)%Z -> floor_log2 n 1 = Z.log2 n.
Proof.
  intros Hn. unfold floor_log2. cbn [Z.log2]. rewrite Z.sub_0_r.
  pose proof (Z.log2_nonneg n) as Hl. pose proof (Z.log2_spec n Hn) as [Hs _].
  replace (0 <=? Z.log2 n)%Z with true by (symmetry; now apply Z.leb_le).
  rewrite Z.mul_1_l.
  now replace (2 ^ Z.log2 n <=? n)%Z with true by (symmetry; now apply Z.leb_le).
Qed.

(** An integer below [2^53] is a binary64. *)
Lemma round64_exact (neg : bool) (n : Z) :
  (0 <= n < 2 ^ 53)%Z -> round64 neg (Qmake n 1) = Fin neg (Qmake n 1).
Proof.
  intros [H0 H53]. unfold round64. cbn [Qnum Qden].
  destruct (Z.leb_spec n 0) as [Hz|Hpos].
  { now replace n with 0%Z by lia. }
  rewrite (floor_log2_integer n Hpos).
  assert (Hl : (0 <= Z.log2 n < 53)%Z).
  { split; [apply Z.log2_nonneg|]. apply Z.log2_lt_pow2; lia. }
  rewrite Z.max_l by lia.
  destruct (Z.leb_spec 0 (Z.log2 n - 52)) as [He|He].
  - replace (Z.log2 n - 52)%Z with 0%Z by lia.
    rewrite Z.pow_0_r, Z.mul_1_l, round_half_even_whole, Z.mul_1_r.
    replace (2 ^ 1024 <=? n)%Z with false.
    2:{ symmetry. apply Z.leb_gt. apply Z.lt_trans with (2 ^ 53)%Z;
          [exact H53 | reflexivity]. }
    cbn [andb]. f_equal. rewrite <- (Qred_integer n). apply Qred_complete.
    unfold pow2, inject_Z, Qeq. simpl. lia.
  - rewrite round_half_even_whole. cbn [andb]. f_equal.
    rewrite <- (Qred_integer n). apply Qred_complete.
    unfold pow2. replace (0 <=? Z.log2 n - 52)%Z with false
      by (symmetry; now apply Z.leb_gt).
    set (k := (- (Z.log2 n - 52))%Z).
    assert (Hk : (0 < 2 ^ k)%Z) by (apply Z.pow_pos_nonneg; lia).
    unfold inject_Z, Qeq, Qmult. cbn [Qnum Qden].
    rewrite Pos.mul_1_l, Z2Pos.id by exact Hk. lia.
Qed.

(** An integer from [2^53] on rounds to a binary64 of at least [2^53], or
    to infinity; from [2^1024] on, to infinity. *)
Lemma round64_big (neg : bool) (n : Z) :
  (2 ^ 53 <= n)%Z ->
  (round64 neg (Qmake n 1) = Inf neg
   \/ exists q, round64 neg (Qmake n 1) = Fin neg q
                /\ (inject_Z (2 ^ 53) <= q)%Q)
  /\ ((2 ^ 1024 <= n)%Z -> round64 neg (Qmake n 1) = Inf neg).
Proof.
  intros H53.
  assert (Hpos : (0 < n)%Z) by (apply Z.lt_le_trans with (2 ^ 53)%Z; [reflexivity|exact H53]).
  unfold round64. cbn [Qnum Qden].
  replace (n <=? 0)%Z with false by (symmetry; now apply Z.leb_gt).
  rewrite (floor_log2_integer n Hpos).
  assert (Hl : (53 <= Z.log2 n)%Z) by (apply Z.log2_le_pow2; lia).
  rewrite Z.max_l by lia.
  set (e := (Z.log2 n - 52)%Z). assert (He : (1 <= e)%Z) by (unfold e; lia).
  replace (0 <=? e)%Z with true by (symmetry; apply Z.leb_le; lia).
  rewrite Z.mul_1_l. cbn [andb].
  set (m := round_half_even n (2 ^ e)).
  assert (Hpe : (0 < 2 ^ e)%Z) by (apply Z.pow_pos_nonneg; lia).
  assert (Hm : (2 ^ 52 <= m)%Z).
  { apply Z.le_trans with (n / 2 ^ e)%Z; [|apply round_half_even_lower].
    apply Z.div_le_lower_bound; [exact Hpe|].
    rewrite <- Z.pow_add_r by lia. replace (e + 52)%Z with (Z.log2 n) by (unfold e; lia).
    now apply Z.log2_spec. }
  assert (Hme : (2 ^ 52 * 2 ^ e <= m * 2 ^ e)%Z)
    by (apply Z.mul_le_mono_nonneg_r; lia).
  split.
  - destruct (Z.leb_spec (2 ^ 1024) (m * 2 ^ e)); [now left|right].
    eexists. split; [reflexivity|]. rewrite Qred_correct.
    unfold pow2. replace (0 <=? e)%Z with true by (symmetry; apply Z.leb_le; lia).
    unfold Qle, inject_Z, Qmult. cbn [Qnum Qden]. rewrite !Z.mul_1_r.
    apply Z.le_trans with (2 ^ 52 * 2 ^ e)%Z; [|exact Hme].
    change (2 ^ 53)%Z with (2 ^ 52 * 2 ^ 1)%Z.
    apply Z.mul_le_mono_nonneg_l; [lia|]. apply Z.pow_le_mono_r; lia.
  - intros Hbig.
    assert (Hl' : (1024 <= Z.log2 n)%Z) by (apply Z.log2_le_pow2; lia).
    replace (2 ^ 1024 <=? m * 2 ^ e)%Z with true; [reflexivity|].
    symmetry. apply Z.leb_le.
    apply Z.le_trans with (2 ^ 52 * 2 ^ e)%Z; [|exact Hme].
    rewrite <- Z.pow_add_r by lia. apply Z.pow_le_mono_r; unfold e; lia.
Qed.

Lemma round64_is_a_number (neg : bool) (q : Q) : isNaN (round64 neg q) = false.
Proof.
  unfold round64. destruct (_ <=? _)%Z; [reflexivity|].
  now destruct (_ && _).
Qed.

(** What [parseInt] gives for the digits of an integer below [2^53]. *)
Lemma round64_small_integer (neg : bool) (n : N) :
  (n < 2 ^ 53)%N -> round64 neg (decimal n 0) = Fin neg (decimal n 0).
Proof.
  intros H. rewrite decimal_of_integer. apply round64_exact.
  split; [lia|]. change (2 ^ 53)%Z with (Z.of_N (2 ^ 53)). lia.
Qed.

(** ** Digits and the numeric readers *)

Lemma digit_is_plain (d : ascii) :
  is_digit d = true ->
  is_ws d = false /\ is_quote d = false /\ is_dot d = false.
Proof.
  destruct d as [[] [] [] [] [] [] [] []]; intros H;
    solve [discriminate H | repeat split].
Qed.

Lemma read_sign_digit (d : ascii) (r : string) :
  is_digit d = true -> read_sign (String d r) = (false, String d r).
Proof.
  destruct d as [[] [] [] [] [] [] [] []]; intros H;
    solve [discriminate H | reflexivity].
Qed.

(** [span] cuts a run of [p]-characters exactly where it ends. *)
Lemma span_run (p : ascii -> bool) (ds rest : string) :
  all_chars p ds = true -> starts_outside p rest = true ->
  span p (ds ++ rest) = (ds, rest).
Proof.
  intros Hds Hrest. induction ds as [|c ds IH]; simpl in *.
  - destruct rest as [|c r]; [reflexivity|]. simpl in *.
    apply negb_true_iff in Hrest. now rewrite Hrest.
  - apply andb_true_iff in Hds as [Hc Hds]. now rewrite Hc, (IH Hds).
Qed.

Lemma digits_have_no_dot (ds : string) :
  all_chars is_digit ds = true -> contains_char is_dot ds = false.
Proof.
  induction ds as [|c ds IH]; simpl; [reflexivity|].
  intros [Hc Hds]%andb_true_iff.
  destruct (digit_is_plain c Hc) as (_ & _ & ->). now apply IH.
Qed.

Lemma contains_char_append (p : ascii -> bool) (a b : string) :
  contains_char p (a ++ b) = contains_char p a || contains_char p b.
Proof.
  induction a as [|c a IH]; simpl; [reflexivity|].
  now rewrite IH, orb_assoc.
Qed.

(** [parseInt(s, 10)] on a run of digits followed by anything that is not a
    digit: the digits are read and the rest is dropped. *)
Lemma parseInt10_digits (ds rest : string) :
  is_empty ds = false -> all_chars is_digit ds = true ->
  starts_outside is_digit rest = true ->
  parseInt10 (ds ++ rest) = round64 false (decimal (digits_val ds) 0).
Proof.
  intros Hne Hds Hrest. unfold parseInt10.
  destruct ds as [|d ds]; [discriminate|].
  pose proof Hds as Hd. simpl in Hd. apply andb_true_iff in Hd as [Hd _].
  destruct (digit_is_plain d Hd) as (Hws & _ & _).
  change (String d ds ++ rest) with (String d (ds ++ rest)).
  cbn [trimStart]. rewrite Hws, (read_sign_digit _ _ Hd).
  change (String d (ds ++ rest)) with (String d ds ++ rest).
  now rewrite (span_run _ _ _ Hds Hrest).
Qed.

(** The emptiness guard of [parseInputValue] lets through a text whose first
    character is not white space. *)
Lemma guard_nonempty (c : ascii) (s : string) :
  is_ws c = false ->
  (is_empty (String c s) || is_empty (trim (String c s))) = false.
Proof.
  intros Hws. unfold trim. cbn [trimStart]. rewrite Hws.
  destruct (trimEnd_nonempty c s Hws) as [r ->]. reflexivity.
Qed.

Lemma not_quoted (c : ascii) (s : string) :
  is_quote c = false -> quoted_re (String c s) = false.
Proof. intros Hq. unfold quoted_re. destruct s; [reflexivity|]. now rewrite Hq. Qed.

Lemma guards_pass (c : ascii) (s : string) :
  is_ws c = false -> is_quote c = false ->
  (is_empty (String c s) || is_empty (trim (String c s))) = false
  /\ quoted_re (String c s) = false.
Proof. intros Hws Hq. split; [now apply guard_nonempty | now apply not_quoted]. Qed.

(** ** The inference of [parseInputValue] *)

(** C4, as the code has it.  The inference table, on the untyped values
    the code returns: the text [42] gives the number 42, [3.14] gives the
    binary64 nearest to 3.14, the quoted [red] gives the string red, the
    empty text is an error, and the unquoted [1.0] gives the number 1, which
    is what [1] gives, and is not a string. *)
Theorem inference_table :
  parseInputValue (Some "42") = Ok (PNumber (of_int 42))
  /\ parseInputValue (Some "3.14")
     = Ok (PNumber (round64 false (decimal 314 (-2))))
  /\ round64 false (decimal 314 (-2))
     = Fin false (Qmake 7070651414971679 2251799813685248)
  /\ parseInputValue (Some (dq ++ "red" ++ dq)) = Ok (PString "red")
  /\ parseInputValue (Some "") = Throw "Value cannot be empty"
  /\ parseInputValue (Some "1.0") = Ok (PNumber (of_int 1))
  /\ parseInputValue (Some "1.0") = parseInputValue (Some "1")
  /\ (forall s, parseInputValue (Some "1.0") <> Ok (PString s)).
Proof.
  repeat split; try (vm_compute; reflexivity). intros s H. vm_compute in H.
  discriminate H.
Qed.

(** The numbers the inference returns carry no type: the texts [1.0] and
    [1], and the texts [42] and [42.0], give one and the same value, so
    nothing computed from the value tells a float from an integer. *)
Lemma numbers_are_untyped :
  parseInputValue (Some "1.0") = parseInputValue (Some "1")
  /\ parseInputValue (Some "42") = parseInputValue (Some "42.0")
  /\ (forall (T : Type) (kind : result ParsedValue -> T),
        kind (parseInputValue (Some "1.0")) = kind (parseInputValue (Some "1"))).
Proof.
  assert (H : parseInputValue (Some "1.0") = parseInputValue (Some "1"))
    by (vm_compute; reflexivity).
  split; [exact H|]. split; [vm_compute; reflexivity|].
  intros T kind. now rewrite H.
Qed.

(** C5. A text that starts like a number and goes on with something else is
    not rejected: [parseInt] and [parseFloat] read the leading number and
    drop the rest, so [12abc] gives 12 and [1.5abc] gives 1.5. *)
Theorem trailing_garbage_is_accepted :
  parseInputValue (Some "12abc") = Ok (PNumber (of_int 12))
  /\ parseInputValue (Some "1.5abc") = Ok (PNumber (Fin false (decimal 15 (-1))))
  /\ parseInputValue (Some "7 up") = Ok (PNumber (of_int 7)).
Proof. repeat split; reflexivity. Qed.

(** The same, for every text: digits followed by anything without a dot
    that does not start with a digit give the number of the digits. *)
Lemma digits_then_anything (ds rest : string) :
  is_empty ds = false -> all_chars is_digit ds = true ->
  starts_outside is_digit rest = true -> dot_re rest = false ->
  parseInputValue (Some (ds ++ rest))
  = Ok (PNumber (round64 false (decimal (digits_val ds) 0))).
Proof.
  intros Hne Hds Hrest Hdot. unfold parseInputValue.
  assert (Hint := parseInt10_digits ds rest Hne Hds Hrest).
  assert (Hnodot : dot_re (ds ++ rest) = false).
  { unfold dot_re in *. now rewrite contains_char_append, Hdot,
      (digits_have_no_dot _ Hds). }
  destruct ds as [|d ds]; [discriminate|].
  pose proof Hds as Hd. simpl in Hd. apply andb_true_iff in Hd as [Hd _].
  destruct (digit_is_plain d Hd) as (Hws & Hq & _).
  change (String d ds ++ rest) with (String d (ds ++ rest)) in *.
  destruct (guards_pass d (ds ++ rest) Hws Hq) as [-> ->].
  now rewrite Hnodot, Hint, round64_is_a_number.
Qed.

(** ** Quoted tokens *)

Lemma rest_then_quote_closing (r : string) :
  contains_char is_quote r = false -> rest_then_quote (r ++ dq) = true.
Proof.
  induction r as [|c r IH]; simpl; [reflexivity|].
  intros [Hc Hr]%orb_false_iff. rewrite Hc. now apply IH.
Qed.

Lemma rest_then_quote_inner_quote (r : string) :
  contains_char is_quote r = true -> rest_then_quote (r ++ dq) = false.
Proof.
  induction r as [|c r IH]; simpl; [discriminate|].
  destruct (is_quote c) eqn:Hc; simpl.
  - intros _. now destruct r.
  - exact IH.
Qed.

(** A text that starts with a double quote is no number. *)
Lemma quote_is_not_a_number (s : string) :
  parseFloat (dq ++ s) = NaN /\ parseInt10 (dq ++ s) = NaN.
Proof. split; reflexivity. Qed.

(** [value.substring(1, value.length - 1)] drops the first and the last
    character. *)
Lemma substring_strips_ends (q : ascii) (inner : string) :
  js_substring (String q (inner ++ dq)) 1 (length (String q (inner ++ dq)) - 1)
  = inner.
Proof.
  unfold js_substring.
  assert (HL : length (String q (inner ++ dq)) = S (S (length inner))).
  { cbn [length]. rewrite length_append. simpl. lia. }
  rewrite HL.
  replace (Nat.min 1 (S (S (length inner)))) with 1 by lia.
  replace (Nat.min (S (S (length inner)) - 1) (S (S (length inner))))
    with (S (length inner)) by lia.
  replace (Nat.min 1 (S (length inner))) with 1 by lia.
  replace (Nat.max 1 (S (length inner)) - 1) with (length inner) by lia.
  cbn [substring]. apply substring_prefix.
Qed.

(** C6, as the code has it.  A token made of a double quote, a non-empty
    content without double quote, and a double quote gives the string of
    its content, whatever the content (a numeric literal included). *)
Theorem quoted_token_is_string (inner : string) :
  is_empty inner = false -> contains_char is_quote inner = false ->
  parseInputValue (Some (dq ++ inner ++ dq)) = Ok (PString inner).
Proof.
  intros Hne Hq. destruct inner as [|c r]; [discriminate|].
  simpl in Hq. apply orb_false_iff in Hq as [Hc Hr].
  unfold parseInputValue.
  change (dq ++ String c r ++ dq)
    with (String (ascii_of_N 34) (String c (r ++ dq))).
  rewrite (guard_nonempty (ascii_of_N 34) (String c (r ++ dq)) eq_refl).
  unfold quoted_re. rewrite Hc, (rest_then_quote_closing _ Hr).
  change (is_quote (ascii_of_N 34)) with true. cbn [negb andb].
  f_equal. f_equal.
  apply (substring_strips_ends (ascii_of_N 34) (String c r)).
Qed.

Lemma quoted_token_is_string_witness :
  parseInputValue (Some (dq ++ "1.0" ++ dq)) = Ok (PString "1.0").
Proof. apply (quoted_token_is_string "1.0"); reflexivity. Defined.

(** The value the loop hands over when it is a quoted text. *)
Lemma quoted_value_read (raw inner : string) :
  raw = dq ++ inner ++ dq ->
  is_empty inner = false -> contains_char is_quote inner = false ->
  is_empty raw = false /\ parseInputValue (Some raw) = Ok (PString inner).
Proof.
  intros -> Hne Hq. split; [reflexivity|].
  destruct inner as [|c r]; [discriminate|].
  simpl in Hq. apply orb_false_iff in Hq as [Hc Hr].
  unfold parseInputValue.
  change (dq ++ String c r ++ dq)
    with (String (ascii_of_N 34) (String c (r ++ dq))).
  rewrite (guard_nonempty (ascii_of_N 34) (String c (r ++ dq)) eq_refl).
  unfold quoted_re. rewrite Hc, (rest_then_quote_closing _ Hr).
  change (is_quote (ascii_of_N 34)) with true. cbn [negb andb].
  f_equal. f_equal.
  apply (substring_strips_ends (ascii_of_N 34) (String c r)).
Qed.

(** The empty quoted token, and a quoted token with a double quote inside,
    are rejected: the quoted-string test wants one or more characters other
    than a double quote between the quotes. *)
Lemma empty_quoted_token_rejected :
  parseInputValue (Some (dq ++ "" ++ dq)) = Throw ("Invalid integer: " ++ dq ++ dq)
  /\ parseInputValue (Some (dq ++ "" ++ dq)) <> Ok (PString "")
  /\ is_throw (parseInputValue (Some (dq ++ ("a" ++ dq ++ "b") ++ dq))) = true.
Proof. repeat split. intros H. discriminate H. Qed.

Lemma badly_quoted_token_rejected (inner : string) :
  is_empty inner || contains_char is_quote inner = true ->
  is_throw (parseInputValue (Some (dq ++ inner ++ dq))) = true.
Proof.
  intros H. unfold parseInputValue.
  assert (Hre : quoted_re (dq ++ inner ++ dq) = false).
  { destruct inner as [|c r]; [reflexivity|]. simpl in H.
    change (dq ++ String c r ++ dq)
      with (String (ascii_of_N 34) (String c (r ++ dq))).
    unfold quoted_re. destruct (is_quote c) eqn:Hc; simpl in H.
    - now rewrite andb_false_r.
    - now rewrite (rest_then_quote_inner_quote _ H), andb_false_r. }
  destruct (quote_is_not_a_number (inner ++ dq)) as [Hf Hi].
  change (dq ++ inner ++ dq) with (String (ascii_of_N 34) (inner ++ dq)) in *.
  rewrite (guard_nonempty (ascii_of_N 34) (inner ++ dq) eq_refl), Hre.
  change (String (ascii_of_N 34) (inner ++ dq)) with (dq ++ inner ++ dq) in *.
  rewrite Hf, Hi. now destruct (dot_re _).
Qed.

(** ** Numbers outside the scope of the heuristic *)

(** Negative zero, a value beyond the range of a 32-bit integer and a
    literal with an exponent are not rejected. *)
Lemma out_of_scope_numbers_accepted :
  parseInputValue (Some "-0") = Ok (PNumber (Fin true (decimal 0 0)))
  /\ parseInputValue (Some "99999999999") = Ok (PNumber (of_int 99999999999))
  /\ (2147483647 < 99999999999)%Z
  /\ parseInputValue (Some "1.5e3") = Ok (PNumber (of_int 1500))
  /\ parseInputValue (Some "-0.0") = Ok (PNumber (Fin true (decimal 0 0))).
Proof. repeat split; reflexivity. Qed.

Lemma span_all (p : ascii -> bool) (ds : string) :
  all_chars p ds = true -> span p ds = (ds, "").
Proof.
  intros H. rewrite <- (append_nil_r ds) at 1. now apply span_run.
Qed.

Lemma signed_digits_parseInt (c : ascii) (neg : bool) (ds : string) :
  is_ws c = false -> (forall r, read_sign (String c r) = (neg, r)) ->
  is_empty ds = false -> all_chars is_digit ds = true ->
  parseInt10 (String c ds) = round64 neg (decimal (digits_val ds) 0).
Proof.
  intros Hws Hsign Hne Hds. unfold parseInt10. cbn [trimStart].
  now rewrite Hws, Hsign, (span_all _ _ Hds), Hne.
Qed.

Lemma signed_digits_accepted (c : ascii) (neg : bool) (ds : string) :
  is_ws c = false -> is_quote c = false -> is_dot c = false ->
  (forall r, read_sign (String c r) = (neg, r)) ->
  is_empty ds = false -> all_chars is_digit ds = true ->
  parseInputValue (Some (String c ds))
  = Ok (PNumber (round64 neg (decimal (digits_val ds) 0))).
Proof.
  intros Hws Hq Hdot Hsign Hne Hds. unfold parseInputValue.
  rewrite (guard_nonempty _ _ Hws), (not_quoted _ _ Hq).
  unfold dot_re. cbn [contains_char].
  rewrite Hdot, (digits_have_no_dot _ Hds). cbn [orb].
  now rewrite (signed_digits_parseInt c neg ds), round64_is_a_number.
Qed.

(** A token made of an optional sign and digits. *)
Lemma signed_integer_read (sign ds : string) :
  sign = "" \/ sign = "+" \/ sign = "-" ->
  is_empty ds = false -> all_chars is_digit ds = true ->
  parseInputValue (Some (sign ++ ds))
  = Ok (PNumber (round64 (sign =? "-") (decimal (digits_val ds) 0))).
Proof.
  intros Hsign Hne Hds. destruct Hsign as [-> | [-> | ->]].
  - cbn [append]. rewrite <- (append_nil_r ds) at 1.
    exact (digits_then_anything ds "" Hne Hds eq_refl eq_refl).
  - now apply (signed_digits_accepted "+" false).
  - now apply (signed_digits_accepted "-" true).
Qed.

Lemma digit_or_dot_is_plain (c : ascii) :
  is_digit c || is_dot c || is_sign c = true ->
  is_ws c = false /\ is_quote c = false
  /\ (forall r, is_prefix "Infinity" (String c r) = false).
Proof.
  destruct c as [[] [] [] [] [] [] [] []]; intros H;
    solve [discriminate H | repeat split].
Qed.

Lemma exponent_mark_is_no_digit (e : ascii) :
  e = "e"%char \/ e = "E"%char ->
  is_digit e = false /\ is_dot e = false
  /\ ((code e =? 101) || (code e =? 69))%N = true.
Proof. intros [-> | ->]; repeat split. Qed.

(** The exponent part of a literal: the mark, an optional sign, digits. *)
Lemma read_exponent_literal (e : ascii) (esign ed : string) :
  e = "e"%char \/ e = "E"%char ->
  esign = "" \/ esign = "+" \/ esign = "-" ->
  is_empty ed = false -> all_chars is_digit ed = true ->
  read_exponent (String e (esign ++ ed))
  = if esign =? "-" then (- Z.of_N (digits_val ed))%Z
    else Z.of_N (digits_val ed).
Proof.
  intros He Hs Hne Hd. destruct (exponent_mark_is_no_digit e He) as (_ & _ & Hm).
  unfold read_exponent. rewrite Hm.
  destruct Hs as [-> | [-> | ->]]; cbn [append String.eqb].
  - destruct ed as [|d ed]; [discriminate|].
    pose proof Hd as Hd'. simpl in Hd'. apply andb_true_iff in Hd' as [Hd' _].
    now rewrite (read_sign_digit _ _ Hd'), (span_all _ _ Hd).
  - cbn [read_sign]. now rewrite (span_all _ _ Hd), Hne.
  - cbn [read_sign]. now rewrite (span_all _ _ Hd), Hne.
Qed.

(** [parseFloat] on digits, a dot, digits and an exponent part, behind a
    sign that [read_sign] has read. *)
Lemma parseFloat_literal (s body ip fp : string) (e : ascii) (esign ed : string)
      (neg : bool) :
  trimStart s = s -> read_sign s = (neg, body) ->
  body = ip ++ "." ++ fp ++ String e (esign ++ ed) ->
  is_empty ip = false -> all_chars is_digit ip = true ->
  all_chars is_digit fp = true ->
  e = "e"%char \/ e = "E"%char ->
  esign = "" \/ esign = "+" \/ esign = "-" ->
  is_empty ed = false -> all_chars is_digit ed = true ->
  parseFloat s
  = round64 neg
      (decimal (digits_val (ip ++ fp))
               ((if esign =? "-" then - Z.of_N (digits_val ed)
                 else Z.of_N (digits_val ed)) - Z.of_nat (length fp))).
Proof.
  intros Ht Hs -> Hip Hdip Hdfp He Hes Hed Hded.
  destruct (exponent_mark_is_no_digit e He) as (Hnd & _ & _).
  unfold parseFloat. rewrite Ht, Hs.
  destruct ip as [|d ip]; [discriminate|].
  pose proof Hdip as Hd. simpl in Hd. apply andb_true_iff in Hd as [Hd _].
  assert (Hplain : is_digit d || is_dot d || is_sign d = true) by now rewrite Hd.
  destruct (digit_or_dot_is_plain d Hplain) as (_ & _ & Hinf).
  change (String d ip ++ "." ++ fp ++ String e (esign ++ ed))
    with (String d (ip ++ "." ++ fp ++ String e (esign ++ ed))).
  rewrite Hinf.
  change (String d (ip ++ "." ++ fp ++ String e (esign ++ ed)))
    with (String d ip ++ "." ++ fp ++ String e (esign ++ ed)).
  rewrite (span_run is_digit (String d ip)
                    ("." ++ fp ++ String e (esign ++ ed)) Hdip eq_refl).
  cbn [append].
  rewrite (span_run is_digit fp (String e (esign ++ ed)) Hdfp).
  2:{ cbn [starts_outside]. now rewrite Hnd. }
  cbn [is_empty andb].
  now rewrite (read_exponent_literal e esign ed He Hes Hed Hded).
Qed.

Lemma signed_literal_read (fsign ip fp : string) (e : ascii) (esign ed : string) :
  fsign = "" \/ fsign = "+" \/ fsign = "-" ->
  is_empty ip = false -> all_chars is_digit ip = true ->
  all_chars is_digit fp = true ->
  e = "e"%char \/ e = "E"%char ->
  esign = "" \/ esign = "+" \/ esign = "-" ->
  is_empty ed = false -> all_chars is_digit ed = true ->
  parseInputValue (Some (fsign ++ ip ++ "." ++ fp ++ String e (esign ++ ed)))
  = Ok (PNumber
          (round64 (fsign =? "-")
             (decimal (digits_val (ip ++ fp))
                      ((if esign =? "-" then - Z.of_N (digits_val ed)
                        else Z.of_N (digits_val ed)) - Z.of_nat (length fp))))).
Proof.
  intros Hf Hip Hdip Hdfp He Hes Hed Hded.
  set (body := ip ++ "." ++ fp ++ String e (esign ++ ed)).
  assert (Hdot : dot_re (fsign ++ body) = true).
  { unfold dot_re, body. rewrite 2!contains_char_append.
    cbn [append contains_char]. change (is_dot ".") with true.
    apply orb_true_iff. right. apply orb_true_iff. now right. }
  assert (Hbody : exists d r, body = String d r /\ is_digit d = true).
  { unfold body. destruct ip as [|d ip]; [discriminate|]. simpl in Hdip.
    apply andb_true_iff in Hdip as [Hd _].
    exists d, (ip ++ "." ++ fp ++ String e (esign ++ ed)).
    split; [reflexivity | exact Hd]. }
  destruct Hbody as (d & r & Hbody & Hd).
  destruct (digit_is_plain d Hd) as (Hws & Hq & _).
  assert (Hfloat : forall s neg,
             trimStart s = s -> read_sign s = (neg, body) ->
             parseFloat s
             = round64 neg
                 (decimal (digits_val (ip ++ fp))
                    ((if esign =? "-" then - Z.of_N (digits_val ed)
                      else Z.of_N (digits_val ed)) - Z.of_nat (length fp)))).
  { intros s neg Ht Hs.
    now apply (parseFloat_literal s body ip fp e esign ed neg). }
  unfold parseInputValue. rewrite Hdot.
  destruct Hf as [-> | [-> | ->]]; cbn [append String.eqb Ascii.eqb Bool.eqb andb].
  - rewrite (Hfloat body false).
    + rewrite Hbody. rewrite (guard_nonempty d r Hws), (not_quoted d r Hq).
      now rewrite round64_is_a_number.
    + rewrite Hbody. cbn [trimStart]. now rewrite Hws.
    + rewrite Hbody. now apply read_sign_digit.
  - rewrite (Hfloat (String "+" body) false); [|reflexivity|reflexivity].
    rewrite (guard_nonempty "+" body eq_refl), (not_quoted "+" body eq_refl).
    now rewrite round64_is_a_number.
  - rewrite (Hfloat (String "-" body) true); [|reflexivity|reflexivity].
    rewrite (guard_nonempty "-" body eq_refl), (not_quoted "-" body eq_refl).
    now rewrite round64_is_a_number.
Qed.

(** C9, as the code has it.  There is no range check and no check for the
    negative zero, and none of these tokens is rejected.  A token made of an
    optional sign and decimal digits is accepted with the binary64 nearest to
    the integer it denotes: that integer itself below [2^53] (the negative
    zero for a minus sign before zeros), infinity from [2^1024] on.  A
    literal with a dot and an exponent part is accepted with the binary64
    nearest to the value it denotes; [1.0e400] gives infinity and [1.5e-400]
    gives zero. *)
Theorem unchecked_numbers_are_accepted
        (sign ds fsign ip fp : string) (e : ascii) (esign ed : string) :
  sign = "" \/ sign = "+" \/ sign = "-" ->
  is_empty ds = false -> all_chars is_digit ds = true ->
  fsign = "" \/ fsign = "+" \/ fsign = "-" ->
  is_empty ip = false -> all_chars is_digit ip = true ->
  all_chars is_digit fp = true ->
  e = "e"%char \/ e = "E"%char ->
  esign = "" \/ esign = "+" \/ esign = "-" ->
  is_empty ed = false -> all_chars is_digit ed = true ->
  parseInputValue (Some (sign ++ ds))
  = Ok (PNumber (round64 (sign =? "-") (decimal (digits_val ds) 0)))
  /\ ((digits_val ds < 2 ^ 53)%N ->
      parseInputValue (Some (sign ++ ds))
      = Ok (PNumber (Fin (sign =? "-") (decimal (digits_val ds) 0))))
  /\ ((2 ^ 1024 <= digits_val ds)%N ->
      parseInputValue (Some (sign ++ ds)) = Ok (PNumber (Inf (sign =? "-"))))
  /\ parseInputValue (Some (fsign ++ ip ++ "." ++ fp ++ String e (esign ++ ed)))
     = Ok (PNumber
             (round64 (fsign =? "-")
                (decimal (digits_val (ip ++ fp))
                   ((if esign =? "-" then - Z.of_N (digits_val ed)
                     else Z.of_N (digits_val ed)) - Z.of_nat (length fp)))))
  /\ parseInputValue (Some "1.0e400") = Ok (PNumber (Inf false))
  /\ parseInputValue (Some "1.5e-400") = Ok (PNumber (Fin false (Qmake 0 1))).
Proof.
  intros Hsign Hne Hds Hf Hip Hdip Hdfp He Hes Hed Hded.
  pose proof (signed_integer_read sign ds Hsign Hne Hds) as Hint.
  split; [exact Hint|]. split; [|split; [|split; [|split]]].
  - intros Hsmall. now rewrite Hint, round64_small_integer.
  - intros Hbig. rewrite Hint, decimal_of_integer. f_equal. f_equal.
    apply round64_big.
    + apply Z.le_trans with (2 ^ 1024)%Z; [now vm_compute|].
      change (2 ^ 1024)%Z with (Z.of_N (2 ^ 1024)). lia.
    + change (2 ^ 1024)%Z with (Z.of_N (2 ^ 1024)). lia.
  - now apply signed_literal_read.
  - vm_compute. reflexivity.
  - vm_compute. reflexivity.
Qed.

Lemma unchecked_numbers_are_accepted_witness :
  parseInputValue (Some ("-" ++ "9007199254740993"))
  = Ok (PNumber (round64 true (decimal 9007199254740993 0)))
  /\ parseInputValue (Some ("" ++ "1" ++ "." ++ "0" ++ String "e" ("" ++ "400")))
     = Ok (PNumber (Inf false)).
Proof.
  pose proof (unchecked_numbers_are_accepted
                "-" "9007199254740993" "" "1" "0" "e" "" "400") as H.
  destruct H as (H1 & _ & _ & _ & H5 & _);
    try reflexivity; try (right; right; reflexivity);
    try (left; reflexivity).
  split; [exact H1 | exact H5].
Defined.

(** ** Splitting a command line *)

Lemma split_token (w cur rest : string) :
  all_chars (fun c => negb (is_ws c)) w = true ->
  split_ws_aux cur false (w ++ rest) = split_ws_aux (cur ++ w) false rest.
Proof.
  revert cur. induction w as [|c w IH]; intros cur Hw; simpl in *.
  - now rewrite append_nil_r.
  - apply andb_true_iff in Hw as [Hc Hw]. apply negb_true_iff in Hc.
    rewrite Hc, (IH _ Hw), append_assoc. reflexivity.
Qed.

Lemma split_token_after_ws (w cur rest : string) :
  is_token w = true ->
  split_ws_aux cur true (w ++ rest) = split_ws_aux (cur ++ w) false rest.
Proof.
  intros [Hne Hw]%andb_true_iff. destruct w as [|c w]; [discriminate|].
  simpl in *. apply andb_true_iff in Hw as [Hc Hw]. apply negb_true_iff in Hc.
  rewrite Hc, (split_token _ _ _ Hw), append_assoc. reflexivity.
Qed.

Lemma split_more_ws (sep cur rest : string) :
  all_chars is_ws sep = true ->
  split_ws_aux cur true (sep ++ rest) = split_ws_aux cur true rest.
Proof.
  induction sep as [|c sep IH]; simpl; [reflexivity|].
  intros [Hc Hsep]%andb_true_iff. now rewrite Hc, IH.
Qed.

Lemma split_separator (sep cur rest : string) :
  is_separator sep = true ->
  split_ws_aux cur false (sep ++ rest) = cur :: split_ws_aux "" true rest.
Proof.
  intros [Hne Hsep]%andb_true_iff. destruct sep as [|c sep]; [discriminate|].
  simpl in *. apply andb_true_iff in Hsep as [Hc Hsep].
  now rewrite Hc, (split_more_ws _ _ _ Hsep).
Qed.

Lemma split_spread (pieces : list (string * string)) (cur : string) :
  forallb is_piece pieces = true ->
  split_ws_aux cur false (spread pieces) = cur :: map snd pieces.
Proof.
  revert cur. induction pieces as [|[sep tok] r IH]; intros cur H; simpl in *.
  - reflexivity.
  - apply andb_true_iff in H as [[Hsep Htok]%andb_true_iff Hr].
    simpl in Hsep, Htok.
    rewrite (split_separator _ _ _ Hsep), (split_token_after_ws _ _ _ Htok).
    now rewrite (IH _ Hr).
Qed.

(** Splitting a line of tokens gives back the tokens, whatever white space
    separates them. *)
Lemma split_line (address : string) (pieces : list (string * string)) :
  is_token address = true -> forallb is_piece pieces = true ->
  split_ws (address ++ spread pieces) = address :: map snd pieces.
Proof.
  intros [_ Ha]%andb_true_iff Hp. unfold split_ws.
  now rewrite (split_token _ _ _ Ha), (split_spread _ _ Hp).
Qed.

Lemma trimEnd_spread (pieces : list (string * string)) (s w : string) :
  is_token w = true -> forallb is_piece pieces = true ->
  trimEnd (s ++ w ++ spread pieces) = s ++ w ++ spread pieces.
Proof.
  revert s w. induction pieces as [|[sep tok] r IH]; intros s w Hw H; simpl in *.
  - rewrite append_nil_r. now apply trimEnd_append_token.
  - apply andb_true_iff in H as [[_ Htok]%andb_true_iff Hr]. simpl in Htok.
    specialize (IH (s ++ w ++ sep) tok Htok Hr).
    now rewrite !append_assoc in IH.
Qed.

Lemma trim_line (address : string) (pieces : list (string * string)) :
  is_token address = true -> forallb is_piece pieces = true ->
  trim (address ++ spread pieces) = address ++ spread pieces.
Proof.
  intros Ha Hp. unfold trim. rewrite (trimStart_token _ _ Ha).
  exact (trimEnd_spread pieces "" address Ha Hp).
Qed.

(** Joining with single spaces is spreading behind one-space separators. *)
Lemma join_is_spread (a : string) (tokens : list string) :
  join " " (a :: tokens) = a ++ spread (single_spaced tokens).
Proof.
  revert a. induction tokens as [|w r IH]; intros a.
  - simpl. now rewrite append_nil_r.
  - change (join " " (a :: w :: r)) with (a ++ " " ++ join " " (w :: r)).
    now rewrite IH.
Qed.

Lemma single_spaced_pieces (pieces : list (string * string)) :
  forallb is_piece pieces = true ->
  forallb is_piece (single_spaced (map snd pieces)) = true
  /\ map snd (single_spaced (map snd pieces)) = map snd pieces.
Proof.
  induction pieces as [|[sep tok] r IH]; simpl; [now split|].
  intros [[_ Htok]%andb_true_iff Hr]%andb_true_iff. simpl in Htok.
  destruct (IH Hr) as [H1 H2]. split.
  - unfold is_piece at 1. simpl. now rewrite Htok, H1.
  - now rewrite H2.
Qed.

Lemma append_cancel_l (a b c : string) : a ++ b = a ++ c -> b = c.
Proof.
  induction a as [|x a IH]; simpl; [trivial|]. intros [= H]. now apply IH.
Qed.

(** A line that reads the same with single spaces had single spaces. *)
Lemma respaced_is_same (pieces : list (string * string)) :
  forallb is_piece pieces = true ->
  spread (single_spaced (map snd pieces)) = spread pieces ->
  forallb (fun p => fst p =? " ") pieces = true.
Proof.
  induction pieces as [|[sep tok] r IH]; [reflexivity|].
  cbn [forallb map snd fst single_spaced spread].
  intros [[Hsep Htok]%andb_true_iff Hr]%andb_true_iff E.
  cbn [fst snd] in Hsep, Htok.
  apply andb_true_iff in Hsep as [Hne Hws].
  apply andb_true_iff in Htok as [Hne' Hnws].
  destruct sep as [|c sep]; [discriminate|].
  destruct tok as [|t tok]; [discriminate|].
  cbn [all_chars] in Hws, Hnws.
  apply andb_true_iff in Hws as [_ Hws].
  apply andb_true_iff in Hnws as [Ht _]. apply negb_true_iff in Ht.
  change (single_spaced (map snd r))
    with (map (fun w => (" ", w)) (map snd r)) in IH.
  cbn [append] in E. injection E as Hc E. subst c.
  destruct sep as [|c' sep].
  - cbn [append] in E. injection E as E. apply append_cancel_l in E.
    cbn [String.eqb Ascii.eqb Bool.eqb andb]. now apply IH.
  - cbn [append all_chars] in E, Hws. injection E as Hc _. subst c'.
    apply andb_true_iff in Hws as [Hws _]. congruence.
Qed.

Lemma slash_is_not_quit (r : string) : is_quit (String "/" r) = false.
Proof. reflexivity. Qed.

(** What the loop reads off a line of tokens. *)
Lemma command_parts (address : string) (pieces : list (string * string)) :
  startsWith address "/" = true ->
  is_token address = true -> forallb is_piece pieces = true ->
  is_quit (trim (address ++ spread pieces)) = false
  /\ command_address (trim (address ++ spread pieces)) = address
  /\ command_value (trim (address ++ spread pieces))
     = join " " (map snd pieces).
Proof.
  intros Hs Ha Hp. rewrite (trim_line _ _ Ha Hp).
  unfold command_address, command_value. rewrite (split_line _ _ Ha Hp).
  repeat split.
  destruct (starts_with_slash _ Hs) as [r ->]. apply slash_is_not_quit.
Qed.

(** ** The send pump *)

Section SendPumpFacts.

Variable toBuffer : string -> list ParsedValue -> result (list byte).
Variable numberToString : number -> string.

Local Abbreviation step := (iteration toBuffer numberToString).
Local Abbreviation loop := (send_loop toBuffer numberToString).

(** A pass of the loop sees of its input line only the quit test, the
    address and the joined value. *)
Lemma iteration_reads (port : Z) (ip a b : string) (net : option string) :
  is_quit (trim a) = is_quit (trim b) ->
  command_address (trim a) = command_address (trim b) ->
  command_value (trim a) = command_value (trim b) ->
  step port ip (Answer a) net = step port ip (Answer b) net.
Proof.
  intros Hq Ha Hv. unfold iteration. now rewrite Hq, Ha, Hv.
Qed.

Lemma parsed_value_is_not_NaN (value : option string) (v : ParsedValue) :
  parseInputValue value = Ok v -> valueIsNaN v = false.
Proof.
  unfold parseInputValue. destruct value as [s|]; [|discriminate].
  destruct (_ || _); [discriminate|].
  destruct (quoted_re s); [now intros [= <-]|].
  destruct (dot_re s).
  - destruct (isNaN (parseFloat s)) eqn:E; [discriminate|]. now intros [= <-].
  - destruct (isNaN (parseInt10 s)) eqn:E; [discriminate|]. now intros [= <-].
Qed.

(** C10. The loop splits the line on runs of white space and joins the
    tokens behind the address with single spaces: whatever white space the
    operator typed between two tokens, the value inferred is the one of
    the line with single spaces.  When the joined tokens are a quoted text,
    the loop encodes the address with one string argument, the text
    between the quotes of the joined tokens, sends that buffer to the
    receiver and logs it; this string is not the text the operator typed
    between the quotes as soon as one separator inside is not a single
    space.  The command [/a] followed by the quoted [x  y] (two spaces)
    sends the string [x y] (one space). *)
Theorem spacing_is_collapsed
        (port : Z) (ip : string) (net : option string)
        (address : string) (pieces : list (string * string)) :
  startsWith address "/" = true ->
  is_token address = true -> forallb is_piece pieces = true ->
  command_value (trim (address ++ spread pieces)) = join " " (map snd pieces)
  /\ step port ip (Answer (address ++ spread pieces)) net
     = step port ip (Answer (join " " (address :: map snd pieces))) net
  /\ (forall inner message,
         join " " (map snd pieces) = dq ++ inner ++ dq ->
         is_empty inner = false -> contains_char is_quote inner = false ->
         toBuffer address [PString inner] = Ok message ->
         (1 <= port <= 65535)%Z ->
         (exists shown,
             fst (step port ip (Answer (address ++ spread pieces)) net)
             = SocketSend message port ip :: shown)
         /\ step port ip (Answer (address ++ spread pieces)) None
            = ([SocketSend message port ip;
                ConsoleLog ("Sent: " ++ address ++ " = " ++ inner)],
               Continue))
  /\ (forall sep tok more typed inner,
         pieces = (sep, tok) :: more ->
         tok ++ spread more = dq ++ typed ++ dq ->
         join " " (map snd pieces) = dq ++ inner ++ dq ->
         existsb (fun p => negb (fst p =? " ")) more = true ->
         inner <> typed)
  /\ (forall message,
         toBuffer "/a" [PString "x y"] = Ok message ->
         step 9000 "127.0.0.1" (Answer ("/a " ++ dq ++ "x  y" ++ dq)) None
         = ([SocketSend message 9000 "127.0.0.1";
             ConsoleLog "Sent: /a = x y"], Continue)).
Proof.
  intros Hs Ha Hp.
  destruct (command_parts address pieces Hs Ha Hp) as (Hq & Hadr & Hval).
  destruct (single_spaced_pieces pieces Hp) as [Hp' Hsnd].
  destruct (command_parts address _ Hs Ha Hp') as (Hq' & Hadr' & Hval').
  rewrite Hsnd in Hval'. rewrite <- join_is_spread in Hq', Hadr', Hval'.
  split; [exact Hval|]. split; [|split; [|split]].
  - apply iteration_reads; congruence.
  - intros inner message Hj Hne Hin Hm Hport.
    destruct (quoted_value_read _ inner Hj Hne Hin) as [Hraw Hread].
    assert (Hrange : (port <? 1)%Z || (port >? 65535)%Z = false)
      by (apply orb_false_iff; split; lia).
    unfold iteration. rewrite Hq, Hadr, Hval, Hs, Hraw, Hread.
    cbn [negb valueIsNaN]. rewrite Hm. unfold sendMessage. rewrite Hrange.
    split; [|reflexivity].
    destruct net as [err|]; [|eexists; reflexivity].
    destruct (on_loop_error err). eexists; reflexivity.
  - intros sep tok more typed inner -> Htyped Hj Hex ->.
    cbn [map snd] in Hj. rewrite join_is_spread, <- Htyped in Hj.
    apply append_cancel_l in Hj.
    cbn [forallb] in Hp. apply andb_true_iff in Hp as [_ Hmore].
    pose proof (respaced_is_same more Hmore Hj) as Hall.
    clear - Hex Hall. induction more as [|p r IH]; [discriminate|].
    cbn [existsb forallb] in *. apply andb_true_iff in Hall as [H1 H2].
    rewrite H1 in Hex. now apply IH.
  - intros message Hm. unfold iteration.
    change (trim ("/a " ++ dq ++ "x  y" ++ dq))
      with ("/a " ++ dq ++ "x  y" ++ dq).
    change (is_quit ("/a " ++ dq ++ "x  y" ++ dq)) with false.
    change (command_address ("/a " ++ dq ++ "x  y" ++ dq)) with "/a".
    change (command_value ("/a " ++ dq ++ "x  y" ++ dq))
      with (dq ++ "x y" ++ dq).
    change (parseInputValue (Some (dq ++ "x y" ++ dq)))
      with (Ok (PString "x y")).
    cbn [negb startsWith is_prefix Ascii.eqb Bool.eqb andb is_empty append dq].
    cbn [valueIsNaN]. rewrite Hm. reflexivity.
Qed.

(** One reported failure: the pass reports it and the loop goes on. *)
Lemma failure_is_reported (port : Z) (ip input : string)
      (net : option string) (f : Failure) :
  is_quit (trim input) = false ->
  fails toBuffer port (trim input) net f ->
  looks_like_forced_close f = false ->
  step port ip (Answer input) net = (report port ip f, Continue).
Proof.
  intros Hq Hf Hc. unfold iteration. rewrite Hq.
  destruct f as [| |msg|message err]; cbn [fails report] in Hf |- *.
  - now rewrite Hf.
  - destruct Hf as [-> ->]. reflexivity.
  - destruct Hf as (-> & Hne & Hv). cbn [negb].
    destruct (command_value (trim input)) eqn:E; [contradiction|].
    cbn [is_empty]. now rewrite Hv.
  - destruct Hf as (-> & (value & Hv & Hb) & Hport & ->). cbn [negb].
    destruct (command_value (trim input)) eqn:E;
      [cbv in Hv; discriminate Hv|].
    cbn [is_empty]. rewrite Hv, (parsed_value_is_not_NaN _ _ Hv), Hb.
    unfold sendMessage.
    replace ((port <? 1)%Z || (port >? 65535)%Z) with false
      by (symmetry; apply orb_false_iff; split; lia).
    unfold on_loop_error. cbn [looks_like_forced_close] in Hc.
    now rewrite Hc.
Qed.

(** The failures the loop survives.  A command that fails, because its
    address does not start with a slash, because its value is missing or
    cannot be parsed, or because the send itself fails with a message
    without the words of a closed prompt, is reported and the loop goes on
    with the next command; nothing is sent for the first three. *)
Lemma failed_command_is_not_fatal (port : Z) (ip input : string)
        (net : option string) (f : Failure)
        (rest : list (PromptOutcome * option string)) :
  is_quit (trim input) = false ->
  fails toBuffer port (trim input) net f ->
  looks_like_forced_close f = false ->
  loop port ip ((Answer input, net) :: rest)
  = ((report port ip f ++ fst (loop port ip rest))%list,
     snd (loop port ip rest))
  /\ match f with
     | SendFailed _ _ => True
     | _ => filter is_send (report port ip f) = []
     end.
Proof.
  intros Hq Hf Hc. split.
  - cbn [send_loop]. rewrite (failure_is_reported _ _ _ _ _ Hq Hf Hc).
    now destruct (send_loop _ _ _ _ rest).
  - now destruct f.
Qed.

(** The failure the loop does not survive: a failed send whose message
    contains the words the prompt throws when it is closed.  The [catch]
    clause takes it for the operator closing the prompt: the buffer is
    sent, the pump says goodbye and exits the process, and what follows is
    never read. *)
Lemma closing_words_end_the_pump (port : Z) (ip input : string)
      (net : option string) (message : list byte) (err : string)
      (rest : list (PromptOutcome * option string)) :
  is_quit (trim input) = false ->
  fails toBuffer port (trim input) net (SendFailed message err) ->
  includes err "User force closed" = true ->
  loop port ip ((Answer input, net) :: rest)
  = ([SocketSend message port ip;
      ConsoleLog (nl ++ "Goodbye!"); ProcessExit 0], Exit).
Proof.
  intros Hq (Hs & (value & Hv & Hb) & Hport & ->) Hc.
  cbn [send_loop]. unfold iteration. rewrite Hq, Hs. cbn [negb].
  destruct (command_value (trim input)) eqn:E;
    [cbv in Hv; discriminate Hv|].
  cbn [is_empty]. rewrite Hv, (parsed_value_is_not_NaN _ _ Hv), Hb.
  unfold sendMessage.
  replace ((port <? 1)%Z || (port >? 65535)%Z) with false
    by (symmetry; apply orb_false_iff; split; lia).
  unfold on_loop_error. now rewrite Hc.
Qed.

End SendPumpFacts.

Lemma spacing_is_collapsed_witness :
  iteration address_and_strings no_digits 9000 "127.0.0.1"
            (Answer ("/a" ++ spread [("  ", dq ++ "x"); ("   ", "y" ++ dq)]))
            None
  = ([SocketSend (list_byte_of_string "/a,x y") 9000 "127.0.0.1";
      ConsoleLog "Sent: /a = x y"], Continue).
Proof.
  assert (Hline : startsWith "/a" "/" = true /\ is_token "/a" = true
                 /\ forallb is_piece [("  ", dq ++ "x"); ("   ", "y" ++ dq)]
                    = true) by (repeat split; reflexivity).
  destruct Hline as (Hs & Ha & Hp).
  destruct (spacing_is_collapsed address_and_strings no_digits 9000
              "127.0.0.1" None "/a" [("  ", dq ++ "x"); ("   ", "y" ++ dq)]
              Hs Ha Hp) as (_ & _ & Hsent & _).
  apply (Hsent "x y"); [reflexivity | reflexivity | reflexivity
                        | reflexivity | lia].
Defined.

Lemma failed_command_is_not_fatal_witness :
  send_loop address_only no_digits 9000 "127.0.0.1"
            [(Answer "/a 1", Some "send EMSGSIZE"); (Answer "/b 2", None)]
  = ([SocketSend (list_byte_of_string "/a") 9000 "127.0.0.1";
      ConsoleError "Error sending message: send EMSGSIZE";
      SocketSend (list_byte_of_string "/b") 9000 "127.0.0.1";
      ConsoleLog "Sent: /b = #"], Continue).
Proof.
  apply (failed_command_is_not_fatal address_only no_digits 9000 "127.0.0.1"
           "/a 1" (Some "send EMSGSIZE")
           (SendFailed (list_byte_of_string "/a") "send EMSGSIZE")
           [(Answer "/b 2", None)]).
  - reflexivity.
  - split; [reflexivity|]. split; [|split; [lia | reflexivity]].
    exists (PNumber (of_int 1)). split; reflexivity.
  - reflexivity.
Defined.

(** C8. A failed send is fatal to the pump as soon as the message of its
    error contains the words the prompt throws when it is closed: the
    [catch] clause of the loop tells the two apart by these words alone.
    Here the receiver is a host name made of these words, which the name
    lookup echoes in its error: the pump says goodbye and exits the
    process, and the command behind the failed one is never read.  The
    same failure with any other host name is reported, and the next
    command is sent. *)
Theorem forced_close_message_is_fatal :
  send_loop address_only no_digits 9000 "User force closed"
            [(Answer "/a 1", Some "getaddrinfo ENOTFOUND User force closed");
             (Answer "/b 2", None)]
  = ([SocketSend (list_byte_of_string "/a") 9000 "User force closed";
      ConsoleLog (nl ++ "Goodbye!"); ProcessExit 0], Exit)
  /\ send_loop address_only no_digits 9000 "example.invalid"
               [(Answer "/a 1", Some "getaddrinfo ENOTFOUND example.invalid");
                (Answer "/b 2", None)]
     = ([SocketSend (list_byte_of_string "/a") 9000 "example.invalid";
         ConsoleError
           "Error sending message: getaddrinfo ENOTFOUND example.invalid";
         SocketSend (list_byte_of_string "/b") 9000 "example.invalid";
         ConsoleLog "Sent: /b = #"], Continue).
Proof. split; reflexivity. Qed.

(** ** The monitor pump *)

Section MonitorFacts.

Variable fromBuffer : list byte -> result OscMessage.
Variable numberToString : number -> string.
Variable bufferToString : list byte -> string.

Local Abbreviation step := (monitor_step fromBuffer numberToString bufferToString).
Local Abbreviation run := (monitor_run fromBuffer numberToString bufferToString).
Local Abbreviation handle := (on_message fromBuffer numberToString bufferToString).
Local Abbreviation handle_all := (notices fromBuffer numberToString bufferToString).

Lemma listening_inv (m : Monitor) :
  listening m = true -> socket_open m = true /\ is_fulfilled (created m) = true.
Proof. unfold listening. now intros [? ?]%andb_true_iff. Qed.

(** One datagram: one notice, and the pump listens as before. *)
Lemma step_message (port : Z) (m : Monitor) (buffer : list byte) :
  listening m = true ->
  step port m (OnMessage buffer) = (m, render_notice (handle port buffer)).
Proof.
  intros [Ho Hf]%listening_inv. unfold monitor_step. now rewrite Ho, Hf.
Qed.

Lemma run_messages (port : Z) (m : Monitor) (buffers : list (list byte)) :
  listening m = true ->
  run port m (map OnMessage buffers)
  = (m, List.concat (map render_notice (handle_all port buffers))).
Proof.
  intros Hl. induction buffers as [|b r IH]; [reflexivity|].
  cbn [map monitor_run]. rewrite (step_message _ _ _ Hl), IH. reflexivity.
Qed.

Lemma usable_is_decoded (port : Z) (msg : OscMessage) :
  usable msg = true ->
  exists line, show_message numberToString bufferToString port msg = Decoded line.
Proof.
  unfold usable, show_message. destruct (msg_address msg) as [a|]; [|discriminate].
  intros Ha%negb_true_iff. rewrite Ha.
  destruct (msg_args msg) as [[|x r]|]; eauto.
Qed.

(** C2. While the pump listens, a datagram that fails to decode gives
    exactly one error notice and leaves the pump listening; every run of
    datagrams gives one notice per datagram, in order, and leaves the pump
    listening; of three datagrams whose second is malformed, the pump shows
    three notices, a decoded record, the error, and a decoded record. *)
Theorem malformed_datagram_is_not_fatal (port : Z) (m : Monitor) :
  listening m = true ->
  (forall buffer msg,
      fromBuffer buffer = Throw msg ->
      handle port buffer = DecodeError msg
      /\ step port m (OnMessage buffer)
         = (m, [ConsoleError "Error parsing OSC message:"; ConsoleError msg]))
  /\ (forall buffers,
        List.length (handle_all port buffers) = List.length buffers
        /\ run port m (map OnMessage buffers)
           = (m, List.concat (map render_notice (handle_all port buffers))))
  /\ (forall d1 d2 d3 m1 m3 msg,
        fromBuffer d1 = Ok m1 -> usable m1 = true ->
        fromBuffer d2 = Throw msg ->
        fromBuffer d3 = Ok m3 -> usable m3 = true ->
        exists l1 l3,
          handle_all port [d1; d2; d3]
          = [Decoded l1; DecodeError msg; Decoded l3]
          /\ run port m [OnMessage d1; OnMessage d2; OnMessage d3]
             = (m, [ConsoleLog l1;
                    ConsoleError "Error parsing OSC message:";
                    ConsoleError msg;
                    ConsoleLog l3])).
Proof.
  intros Hl. split; [|split].
  - intros buffer msg Hb.
    assert (Hh : handle port buffer = DecodeError msg)
      by (unfold on_message; now rewrite Hb).
    split; [exact Hh|]. now rewrite (step_message _ _ _ Hl), Hh.
  - intros buffers. split; [apply length_map|]. now apply run_messages.
  - intros d1 d2 d3 m1 m3 msg H1 U1 H2 H3 U3.
    destruct (usable_is_decoded port m1 U1) as [l1 E1].
    destruct (usable_is_decoded port m3 U3) as [l3 E3].
    assert (Hn : handle_all port [d1; d2; d3]
                 = [Decoded l1; DecodeError msg; Decoded l3]).
    { unfold notices, on_message. cbn [map].
      now rewrite H1, H2, H3, E1, E3. }
    exists l1, l3. split; [exact Hn|].
    change [OnMessage d1; OnMessage d2; OnMessage d3]
      with (map OnMessage [d1; d2; d3]).
    now rewrite (run_messages _ _ _ Hl), Hn.
Qed.




(** After an error the socket is closed and emits nothing more. *)
Lemma closed_socket_is_silent (port : Z) (m : Monitor) (evs : list SocketEvent) :
  socket_open m = false -> run port m evs = (m, []).
Proof.
  intros Hc. induction evs as [|ev r IH]; [reflexivity|].
  cbn [monitor_run]. unfold monitor_step at 1. rewrite Hc. cbn [negb].
  now rewrite IH.
Qed.

Lemma error_closes_and_logs (err : Error) :
  In SocketClose (on_error_createSocket err)
  /\ In (ConsoleErrorValue err) (on_error_createSocket err).
Proof.
  unfold on_error_createSocket.
destruct (stack err) as [t|]; [destruct (is_empty t)|]; simpl; tauto.
Qed.

(** C7, as the code has it.  On an error of the socket the endpoint is
    closed, the error is written to the console and the pump is stopped: it
    handles no datagram any more.  The caller is told, by the rejection of
    the promise it holds, only when the error comes before the socket
    listens; once the pump listens that promise is already fulfilled and
    stays so. *)
Theorem socket_error_stops_monitor (port : Z) (m : Monitor) (err : Error) :
  socket_open m = true ->
  stopped (fst (step port m (OnError err))) = true
  /\ In SocketClose (snd (step port m (OnError err)))
  /\ In (ConsoleErrorValue err) (snd (step port m (OnError err)))
  /\ (forall evs,
        run port (fst (step port m (OnError err))) evs
        = (fst (step port m (OnError err)), []))
  /\ (created m = Pending -> returned m = Pending ->
      returned (fst (step port m (OnError err))) = Rejected err)
  /\ (listening m = true ->
      returned (fst (step port m (OnError err))) = returned m
      /\ In (ConsoleError (message err)) (snd (step port m (OnError err)))).
Proof.
  intros Ho. unfold monitor_step. rewrite Ho. cbn [negb fst snd].
  split; [reflexivity|]. split; [|split; [|split; [|split]]].
  - apply in_or_app. left. apply error_closes_and_logs.
  - apply in_or_app. left. apply error_closes_and_logs.
  - intros evs. now apply closed_socket_is_silent.
  - now intros -> ->.
  - intros [_ Hf]%listening_inv. destruct (created m); try discriminate.
    cbn [is_pending is_fulfilled]. split; [reflexivity|].
    apply in_or_app. right. simpl. tauto.
Qed.

End MonitorFacts.

Lemma malformed_datagram_is_not_fatal_witness :
  monitor_step sample_decoder no_digits sample_text 9000 listening_monitor
               (OnMessage [x00])
  = (listening_monitor,
     [ConsoleError "Error parsing OSC message:"; ConsoleError "Malformed Packet"]).
Proof.
  apply (proj1 (malformed_datagram_is_not_fatal sample_decoder no_digits
                  sample_text 9000 listening_monitor eq_refl)
               [x00] "Malformed Packet" eq_refl).
Defined.

Lemma socket_error_stops_monitor_witness :
  stopped (fst (monitor_step sample_decoder no_digits sample_text 9000 binding
                             (OnError (mkError "bind EADDRINUSE" None))))
  = true.
Proof.
  apply (socket_error_stops_monitor sample_decoder no_digits sample_text 9000
           binding (mkError "bind EADDRINUSE" None)); reflexivity.
Defined.

(** An error of the socket while the pump listens does not reach the
    caller: the promise the caller holds was fulfilled when the pump started
    and is not rejected. *)
Lemma error_while_listening_is_not_reported :
  let err := mkError "recvmsg ECONNRESET" None in
  monitor_step sample_decoder no_digits sample_text 9000 listening_monitor
               (OnError err)
  = (mkMonitor false Fulfilled Fulfilled,
     [ConsoleError "Socket error:"; ConsoleErrorValue err; SocketClose;
      ConsoleError "Socket error in monitor:";
      ConsoleError "recvmsg ECONNRESET"])
  /\ returned (fst (monitor_step sample_decoder no_digits sample_text 9000
                                 listening_monitor (OnError err)))
     <> Rejected err.
Proof. split; [reflexivity|]. intros H. discriminate H. Qed.

(** ** The codec *)

Module CodecFacts.

Import Codec.
Local Open Scope Z_scope.
Local Open Scope list_scope.

Lemma Z_of_byte_of_Z (z : Z) : Z_of_byte (byte_of_Z z) = z mod 256.
Proof.
unfold Z_of_byte, byte_of_Z.
assert (Hr : 0 <= z mod 256 < 256) by (apply Z.mod_pos_bound; lia).
destruct (Byte.of_N (Z.to_N (z mod 256))) as [b|] eqn:E.
- apply Byte.to_of_N in E. rewrite E. lia.
- apply Byte.of_N_None_iff in E. lia.
Qed.

(** Four big-endian bytes hold a number modulo 2^32. *)
Lemma decode_encode_u32 (n : Z) (rest : list byte) :
decode_u32 (encode_u32 n ++ rest) = ret (n mod 4294967296, rest).
Proof.
unfold encode_u32, decode_u32. cbn [app]. rewrite !Z_of_byte_of_Z.
unfold ret. f_equal. f_equal.
Z.to_euclidean_division_equations. lia.
Qed.

Lemma to_signed_wrap (i : Z) :
-2147483648 <= i < 2147483648 -> to_signed (i mod 4294967296) = i.
Proof.
intros Hi. unfold to_signed.
destruct (Z.ltb_spec (i mod 4294967296) 2147483648);
  Z.to_euclidean_division_equations; lia.
Qed.

Lemma until_nul_terminator (s rest : list byte) :
forallb (fun b => negb (is_nul b)) s = true ->
until_nul (s ++ x00 :: rest) = (s, x00 :: rest).
Proof.
induction s as [|b s IH]; intros H; simpl in *; [reflexivity|].
apply andb_true_iff in H as [Hb Hs]. apply negb_true_iff in Hb.
now rewrite Hb, (IH Hs).
Qed.

Lemma length_encode_string (s : list byte) :
List.length (encode_string s)
= (S (List.length s) + padding (S (List.length s)))%nat.
Proof.
unfold encode_string, nuls. rewrite length_app. cbn [List.length].
rewrite repeat_length. lia.
Qed.

Lemma skipn_exact {A} (l rest : list A) : skipn (List.length l) (l ++ rest) = rest.
Proof. induction l as [|x l IH]; [reflexivity | exact IH]. Qed.

Lemma firstn_exact {A} (l rest : list A) : firstn (List.length l) (l ++ rest) = l.
Proof. induction l as [|x l IH]; simpl; [reflexivity | now rewrite IH]. Qed.

(** A padded string is read back, and nothing more. *)
Lemma decode_encode_string (s rest : list byte) :
forallb (fun b => negb (is_nul b)) s = true ->
decode_string (encode_string s ++ rest) = ret (s, rest).
Proof.
intros Hs. unfold decode_string.
assert (Hlen := length_encode_string s).
assert (Hcut : skipn (List.length (encode_string s)) (encode_string s ++ rest)
               = rest) by apply skipn_exact.
assert (Hlong : (List.length (encode_string s)
                 <= List.length (encode_string s ++ rest))%nat)
  by (rewrite length_app; lia).
rewrite Hlen in Hcut, Hlong.
assert (Hu : until_nul (encode_string s ++ rest)
             = (s, x00 :: nuls (padding (S (List.length s))) ++ rest)).
{ unfold encode_string. rewrite <- app_assoc. cbn [app].
  now apply until_nul_terminator. }
rewrite Hu.
destruct (Nat.ltb_spec (List.length (encode_string s ++ rest))
            (S (List.length s) + padding (S (List.length s)))); [lia|].
now rewrite Hcut.
Qed.

Lemma decode_encode_arg (a : Argument) (rest : list byte) :
valid_arg a = true ->
decode_arg (tag_of a) (encode_arg a ++ rest) = ret (a, rest).
Proof.
destruct a as [i|bits|text|bytes|t]; cbn [valid_arg tag_of encode_arg decode_arg];
  intros Hv.
- apply andb_true_iff in Hv as [H1 H2].
  rewrite decode_encode_u32. cbn [bind ret]. rewrite to_signed_wrap; [reflexivity|lia].
- apply andb_true_iff in Hv as [H1 H2].
  rewrite decode_encode_u32. cbn [bind ret].
  rewrite Z.mod_small by lia. reflexivity.
- rewrite (decode_encode_string _ _ Hv). cbn [bind ret].
  now rewrite string_of_list_byte_of_string.
- rewrite <- app_assoc, decode_encode_u32. cbn [bind ret].
  rewrite Z.mod_small by lia. rewrite Nat2Z.id.
  assert (Hlen : List.length ((bytes ++ nuls (padding (List.length bytes))) ++ rest)
                 = (List.length bytes + padding (List.length bytes)
                    + List.length rest)%nat).
  { rewrite !length_app. unfold nuls. now rewrite repeat_length. }
  destruct (Nat.ltb_spec
              (List.length ((bytes ++ nuls (padding (List.length bytes))) ++ rest))
              (List.length bytes + padding (List.length bytes))); [lia|].
  rewrite <- (app_assoc bytes) at 1. rewrite firstn_exact.
  replace (List.length bytes + padding (List.length bytes))%nat
    with (List.length (bytes ++ nuls (padding (List.length bytes))))
    by (rewrite length_app; unfold nuls; now rewrite repeat_length).
  now rewrite skipn_exact.
- discriminate.
Qed.

Lemma decode_encode_args (l : list Argument) (rest : list byte) :
forallb valid_arg l = true ->
decode_args (map tag_of l) (List.concat (map encode_arg l) ++ rest)
= ret (l, rest).
Proof.
induction l as [|a l IH]; intros H; [reflexivity|].
cbn [forallb] in H. apply andb_true_iff in H as [Ha Hl].
cbn [map List.concat decode_args]. rewrite <- app_assoc.
rewrite (decode_encode_arg _ _ Ha). cbn [bind ret].
now rewrite (IH Hl).
Qed.

Lemma tags_have_no_nul (l : list Argument) :
forallb valid_arg l = true ->
forallb (fun b => negb (is_nul b)) (","%byte :: map tag_of l) = true.
Proof.
intros H. cbn [forallb]. apply andb_true_iff. split; [reflexivity|].
induction l as [|a l IH]; [reflexivity|].
cbn [forallb map] in *. apply andb_true_iff in H as [Ha Hl].
rewrite (IH Hl), andb_true_r. now destruct a.
Qed.

Lemma slash_first (s : string) :
startsWith s "/" = true ->
exists r, list_byte_of_string s = "/"%byte :: r.
Proof.
intros H. destruct (starts_with_slash s H) as [r ->].
exists (list_byte_of_string r). reflexivity.
Qed.

(** C1. Round trip: decoding the bytes of a valid message gives the message
  back. *)
Theorem decode_encode (m : Message) :
valid m = true -> decode (encode m) = ret m.
Proof.
unfold valid. intros [[Hs Hn]%andb_true_iff Hargs]%andb_true_iff.
unfold encode, decode. unfold no_nul in Hn.
rewrite (decode_encode_string _ _ Hn). cbn [bind ret].
destruct (slash_first _ Hs) as [r Hr].
rewrite Hr. rewrite <- Hr.
rewrite (decode_encode_string _ _ (tags_have_no_nul _ Hargs)). cbn [bind ret].
rewrite <- (app_nil_r (List.concat _)).
rewrite (decode_encode_args _ _ Hargs). cbn [bind ret].
rewrite string_of_list_byte_of_string. now destruct m.
Qed.

Lemma decode_encode_witness :
decode (encode (mkMessage "/light/1" [Int32 (-42); Float32 1078523331;
                                      OscString "red"; Blob [x01; x02; x03]]))
= ret (mkMessage "/light/1" [Int32 (-42); Float32 1078523331;
                             OscString "red"; Blob [x01; x02; x03]]).
Proof. apply decode_encode. reflexivity. Defined.




Lemma unknown_tag_is_no_nul (t : byte) :
is_nul t = false -> negb (is_nul t) = true.
Proof. now intros ->. Qed.



End CodecFacts.

(** ** An argument the program cannot read *)

Module ToleranceFacts.

Import Codec.
Local Open Scope list_scope.



End ToleranceFacts.

(* ================================================================== *)
(** * Part III: further properties of the code *)
(* ================================================================== *)

(** ** More on [parseInputValue] *)

Lemma quote_char (q : ascii) : is_quote q = true -> q = ascii_of_N 34.
Proof.
  unfold is_quote, code. intros H%N.eqb_eq.
  now rewrite <- (ascii_N_embedding q), H.
Qed.

Lemma rest_then_quote_shape (r : string) :
  rest_then_quote r = true ->
  exists r0, r = r0 ++ dq /\ contains_char is_quote r0 = false.
Proof.
  induction r as [|c r IH]; simpl; [discriminate|].
  destruct (is_quote c) eqn:Hc.
  - intros Hr. destruct r; [|discriminate]. exists "". split; [|reflexivity].
    now rewrite (quote_char _ Hc).
  - intros Hr. destruct (IH Hr) as (r0 & -> & H0).
    exists (String c r0). split; [reflexivity|]. simpl. now rewrite Hc.
Qed.

(** X1. A string comes out of the inference only for a properly quoted
    token: the input is then the string between two double quotes, and the
    string is not empty and holds no double quote. *)
Theorem string_only_from_quoted (value s : string) :
  parseInputValue (Some value) = Ok (PString s) ->
  value = dq ++ s ++ dq
  /\ is_empty s = false /\ contains_char is_quote s = false.
Proof.
  unfold parseInputValue.
  destruct (_ || _); [discriminate|].
  destruct (quoted_re value) eqn:Hre.
  - intros [= <-]. unfold quoted_re in Hre.
    destruct value as [|q [|c r]]; try discriminate.
    apply andb_true_iff in Hre as [[Hq Hc]%andb_true_iff Hr].
    apply negb_true_iff in Hc.
    destruct (rest_then_quote_shape _ Hr) as (r0 & -> & H0).
    rewrite (quote_char _ Hq).
    change (String (ascii_of_N 34) (String c (r0 ++ dq)))
      with (String (ascii_of_N 34) (String c r0 ++ dq)).
    rewrite substring_strips_ends. repeat split. simpl. now rewrite Hc.
  - destruct (dot_re value).
    + destruct (isNaN _); discriminate.
    + destruct (isNaN _); discriminate.
Qed.

Lemma string_only_from_quoted_witness :
  dq ++ "red" ++ dq = dq ++ "red" ++ dq
  /\ is_empty "red" = false /\ contains_char is_quote "red" = false.
Proof. apply (string_only_from_quoted (dq ++ "red" ++ dq) "red"). reflexivity. Defined.

Lemma trimStart_blank (s : string) : all_chars is_ws s = true -> trimStart s = "".
Proof.
  induction s as [|c s IH]; simpl; [reflexivity|].
  intros [Hc Hs]%andb_true_iff. now rewrite Hc, IH.
Qed.

(** X2. A value made of white space only is rejected as empty, like the
    empty value and the missing one. *)
Theorem blank_value_rejected (value : string) :
  all_chars is_ws value = true ->
  parseInputValue (Some value) = Throw "Value cannot be empty"
  /\ parseInputValue None = Throw "Value cannot be empty".
Proof.
  intros H. split; [|reflexivity]. unfold parseInputValue, trim.
  rewrite (trimStart_blank _ H). cbn [trimEnd is_empty].
  now rewrite orb_true_r.
Qed.

Lemma blank_value_rejected_witness :
  parseInputValue (Some "   ") = Throw "Value cannot be empty".
Proof. apply (blank_value_rejected "   "). reflexivity. Defined.

Lemma bare_is_no_number (c : ascii) (r : string) :
  is_bare c = true -> is_prefix "Infinity" (String c r) = false ->
  parseFloat (String c r) = NaN /\ parseInt10 (String c r) = NaN.
Proof.
  destruct c as [[] [] [] [] [] [] [] []]; intros Hb Hinf;
    try discriminate Hb; unfold parseFloat, parseInt10; cbn in *;
    rewrite ?Hinf; split; reflexivity.
Qed.

(** X3. A word without quotes is never taken for a string: a value that
    starts with a character that is neither white space, a digit, a sign, a
    dot nor a double quote, and that does not start with [Infinity], is
    rejected, as an invalid number when it holds a dot and as an invalid
    integer otherwise. *)
Theorem bare_word_rejected (c : ascii) (r : string) :
  is_bare c = true -> is_prefix "Infinity" (String c r) = false ->
  parseInputValue (Some (String c r))
  = Throw ((if dot_re (String c r) then "Invalid number: "
            else "Invalid integer: ") ++ String c r).
Proof.
  intros Hb Hinf. destruct (bare_is_no_number c r Hb Hinf) as [Hf Hi].
  unfold is_bare in Hb. apply negb_true_iff in Hb.
  apply orb_false_iff in Hb as [Hb _]. apply orb_false_iff in Hb as [Hb _].
  apply orb_false_iff in Hb as [Hb Hq]. apply orb_false_iff in Hb as [Hws _].
  unfold parseInputValue.
  rewrite (guard_nonempty c r Hws), (not_quoted c r Hq).
  rewrite Hf, Hi. now destruct (dot_re _).
Qed.

Lemma bare_word_rejected_witness :
  parseInputValue (Some "red") = Throw "Invalid integer: red".
Proof. apply (bare_word_rejected "r" "ed"); reflexivity. Defined.

(** ** More on the tokens of a command line *)

Lemma all_chars_append (p : ascii -> bool) (a b : string) :
  all_chars p (a ++ b) = all_chars p a && all_chars p b.
Proof.
  induction a as [|c a IH]; simpl; [reflexivity|].
  now rewrite IH, andb_assoc.
Qed.

Lemma split_pieces_have_no_ws (s cur : string) (b : bool) :
  all_chars (fun c => negb (is_ws c)) cur = true ->
  forallb (all_chars (fun c => negb (is_ws c))) (split_ws_aux cur b s) = true.
Proof.
  revert cur b. induction s as [|c s IH]; intros cur b Hcur; simpl.
  - now rewrite Hcur.
  - destruct (is_ws c) eqn:Hc.
    + destruct b; [now apply IH|]. simpl. rewrite Hcur. now apply IH.
    + apply IH. rewrite all_chars_append, Hcur. simpl. now rewrite Hc.
Qed.

Lemma trimEnd_fixed (c : ascii) (r : string) :
  trimEnd (String c r) = String c r ->
  trimEnd r = r /\ (is_ws c = true -> is_empty r = false).
Proof.
  simpl. destruct (is_ws c && is_empty (trimEnd r)) eqn:E; [discriminate|].
  intros [= H]. split; [exact H|]. intros Hc. now rewrite Hc, H in E.
Qed.

(** In a text that does not end with white space, every piece behind the
    first is non-empty. *)
Lemma split_pieces_nonempty (s cur : string) (b : bool) :
  trimEnd s = s ->
  (b = true -> is_empty s = false ->
   forallb (fun p => negb (is_empty p)) (split_ws_aux cur b s) = true)
  /\ (b = false ->
      forallb (fun p => negb (is_empty p)) (tl (split_ws_aux cur b s)) = true
      /\ (is_empty cur = false ->
          forallb (fun p => negb (is_empty p)) (split_ws_aux cur b s) = true)).
Proof.
  revert cur b. induction s as [|c s IH]; intros cur b Hs.
  - split; [discriminate 2|]. intros ->. simpl. split; [reflexivity|].
    now intros ->.
  - destruct (trimEnd_fixed _ _ Hs) as [Hs' Hne]. simpl.
    destruct (is_ws c) eqn:Hc.
    + specialize (Hne eq_refl).
      destruct (IH "" true Hs') as [Ht _]. specialize (Ht eq_refl Hne).
      split.
      * intros -> _. destruct (IH cur true Hs') as [Hcur _]. now apply Hcur.
      * intros ->. simpl. split; [exact Ht|]. intros ->. exact Ht.
    + assert (Hcur : is_empty (cur ++ String c "") = false)
        by (rewrite is_empty_append; now rewrite andb_false_r).
      destruct (IH (cur ++ String c "") false Hs') as [_ Hf].
      destruct (Hf eq_refl) as [Htl Hall]. specialize (Hall Hcur).
      split.
      * intros _ _. exact Hall.
      * intros _. split; [|intros _; exact Hall].
        destruct (split_ws_aux (cur ++ String c "") false s); [reflexivity|].
        simpl in Hall. now apply andb_true_iff in Hall as [_ ?].
Qed.

Lemma trimEnd_idempotent (s : string) : trimEnd (trimEnd s) = trimEnd s.
Proof.
  induction s as [|c s IH]; simpl; [reflexivity|].
  destruct (is_ws c && is_empty (trimEnd s)) eqn:E; [reflexivity|].
  simpl. now rewrite IH, E.
Qed.

Lemma forallb_and {A} (p q : A -> bool) (l : list A) :
  forallb p l = true -> forallb q l = true ->
  forallb (fun x => p x && q x) l = true.
Proof.
  induction l as [|x l IH]; simpl; [reflexivity|].
  intros [-> Hp]%andb_true_iff [-> Hq]%andb_true_iff. now rewrite IH.
Qed.

(** X5. Whatever the operator types, the pieces behind the address are
    tokens, non-empty and free of white space; so the value the inference
    receives is these tokens with one space between two of them, and
    splitting it again gives the same tokens. *)
Theorem value_is_single_spaced (input : string) :
  let tokens := tl (split_ws (trim input)) in
  forallb is_token tokens = true
  /\ command_value (trim input) = join " " tokens
  /\ (tokens <> [] -> split_ws (command_value (trim input)) = tokens).
Proof.
  intros tokens.
  assert (Htok : forallb is_token tokens = true).
  { unfold tokens, is_token. apply forallb_and.
    - apply (split_pieces_nonempty (trim input) "" false).
      + apply trimEnd_idempotent.
      + reflexivity.
    - pose proof (split_pieces_have_no_ws (trim input) "" false eq_refl) as H.
      unfold split_ws. destruct (split_ws_aux "" false (trim input)); [reflexivity|].
      simpl in H. now apply andb_true_iff in H as [_ ?]. }
  split; [exact Htok|]. split; [reflexivity|].
  intros Hne. unfold command_value. fold tokens.
  destruct tokens as [|a l]; [contradiction|].
  cbn [forallb] in Htok. apply andb_true_iff in Htok as [Ha Hl].
  rewrite join_is_spread.
  assert (Hp : forallb is_piece (single_spaced l) = true).
  { clear -Hl. induction l as [|w l IH]; [reflexivity|].
    cbn [forallb] in Hl. apply andb_true_iff in Hl as [Hw Hl].
    simpl. unfold is_piece at 1. simpl. now rewrite Hw, IH. }
  rewrite (split_line _ _ Ha Hp). f_equal.
  clear. induction l as [|w l IH]; [reflexivity|]. simpl. now rewrite IH.
Qed.

Lemma value_is_single_spaced_witness :
  split_ws (command_value (trim "  /a   1  up ")) = ["1"; "up"].
Proof.
  apply (value_is_single_spaced "  /a   1  up "). intros H. discriminate H.
Defined.

(** ** More on the send pump *)

Lemma lower_char_keeps_ws (c : ascii) : is_ws (lower_char c) = is_ws c.
Proof. destruct c as [[] [] [] [] [] [] [] []]; reflexivity. Qed.

Lemma toLowerCase_keeps_tokens (s : string) :
  is_token (toLowerCase s) = is_token s.
Proof.
  unfold is_token. f_equal; [now destruct s|].
  induction s as [|c s IH]; simpl; [reflexivity|].
  now rewrite lower_char_keeps_ws, IH.
Qed.

Lemma quit_word_is_token (word : string) :
  is_quit word = true -> is_token word = true.
Proof.
  unfold is_quit. rewrite <- toLowerCase_keeps_tokens.
  intros [[H|H]%orb_true_iff|H]%orb_true_iff;
    apply String.eqb_eq in H; now rewrite H.
Qed.

Lemma trimEnd_blank (s : string) : all_chars is_ws s = true -> trimEnd s = "".
Proof.
  induction s as [|c s IH]; simpl; [reflexivity|].
  intros [Hc Hs]%andb_true_iff. now rewrite Hc, (IH Hs).
Qed.

Lemma trimEnd_drops_blank (w trail : string) :
  all_chars (fun c => negb (is_ws c)) w = true ->
  all_chars is_ws trail = true -> trimEnd (w ++ trail) = w.
Proof.
  intros Hw Ht. induction w as [|c w IH]; simpl in *.
  - now apply trimEnd_blank.
  - apply andb_true_iff in Hw as [Hc Hw]. apply negb_true_iff in Hc.
    now rewrite Hc, (IH Hw).
Qed.

Lemma trimStart_drops_blank (lead s : string) :
  all_chars is_ws lead = true -> trimStart (lead ++ s) = trimStart s.
Proof.
  induction lead as [|c lead IH]; simpl; [reflexivity|].
  intros [Hc Hl]%andb_true_iff. now rewrite Hc, IH.
Qed.

(** Trimming a token wrapped in white space gives the token. *)
Lemma trim_padded_token (lead w trail : string) :
  all_chars is_ws lead = true -> is_token w = true ->
  all_chars is_ws trail = true -> trim (lead ++ w ++ trail) = w.
Proof.
  intros Hl Hw Ht. unfold trim.
  rewrite (trimStart_drops_blank _ _ Hl), (trimStart_token _ _ Hw).
  apply andb_true_iff in Hw as [_ Hw]. now apply trimEnd_drops_blank.
Qed.

Section MoreSendPumpFacts.

Variable toBuffer : string -> list ParsedValue -> result (list byte).
Variable numberToString : number -> string.

Local Abbreviation step := (iteration toBuffer numberToString).
Local Abbreviation loop := (send_loop toBuffer numberToString).

(** X4. Every message the pump encodes has exactly one argument: the
    inference never yields [NaN], so the empty argument list of the call of
    [osc.toBuffer] is never used and the encoder is only ever asked for
    one-argument messages. *)
Theorem one_argument_per_message (port : Z) (ip : string)
        (inputs : list (PromptOutcome * option string)) :
  loop port ip inputs
  = send_loop (with_one_argument toBuffer) numberToString port ip inputs.
Proof.
  induction inputs as [|[p net] rest IH]; [reflexivity|].
  cbn [send_loop]. rewrite IH.
  replace (iteration (with_one_argument toBuffer) numberToString port ip p net)
    with (step port ip p net); [reflexivity|].
  unfold iteration. destruct p as [input|msg]; [|reflexivity].
  destruct (is_quit _); [reflexivity|].
  destruct (negb _); [reflexivity|].
  destruct (is_empty _); [reflexivity|].
  destruct (parseInputValue _) as [value|msg] eqn:Hv; [|reflexivity].
  now rewrite (parsed_value_is_not_NaN _ _ Hv).
Qed.

(** One pass sends at most once, and only to the port and host the pump was
    started with. *)
Lemma iteration_aims (port : Z) (ip : string) (p : PromptOutcome)
      (net : option string) :
  Forall (aims_at port ip) (fst (step port ip p net))
  /\ (List.length (filter is_send (fst (step port ip p net))) <= 1)%nat.
Proof.
  assert (Hcatch : forall msg,
             Forall (aims_at port ip) (fst (on_loop_error msg))
             /\ filter is_send (fst (on_loop_error msg)) = []).
  { intros msg. unfold on_loop_error. destruct (includes _ _); simpl;
      split; repeat constructor. }
  unfold iteration. destruct p as [input|msg].
  2:{ destruct (Hcatch msg) as [H1 H2]. rewrite H2. split; [exact H1|simpl; lia]. }
  destruct (is_quit _); [simpl; split; [repeat constructor|lia]|].
  destruct (negb _); [simpl; split; [repeat constructor|lia]|].
  destruct (is_empty _); [simpl; split; [repeat constructor|lia]|].
  destruct (parseInputValue _) as [value|msg];
    [|simpl; split; [repeat constructor|lia]].
  destruct (toBuffer _ _) as [message|msg].
  2:{ destruct (Hcatch msg) as [H1 H2]. rewrite H2. split; [exact H1|simpl; lia]. }
  unfold sendMessage. destruct (_ || _)%bool.
  - destruct (Hcatch ("Invalid port number: " ++ show_port port)) as [H1 H2].
    destruct (on_loop_error _) as [shown c]. simpl in *. rewrite H2.
    split; [exact H1|simpl; lia].
  - destruct net as [msg|].
    + destruct (Hcatch msg) as [H1 H2].
      destruct (on_loop_error msg) as [shown c]. simpl in *. rewrite H2.
      split; [constructor; [now split|exact H1]|simpl; lia].
    + simpl. split; [repeat constructor|lia].
Qed.

(** X6. The pump sends nowhere else than to the port and the host it was
    started with, and at most one datagram per command. *)
Theorem sends_go_to_target (port : Z) (ip : string)
        (inputs : list (PromptOutcome * option string)) :
  Forall (aims_at port ip) (fst (loop port ip inputs))
  /\ (List.length (filter is_send (fst (loop port ip inputs)))
      <= List.length inputs)%nat.
Proof.
  induction inputs as [|[p net] rest [IH1 IH2]]; [split; [constructor|simpl; lia]|].
  cbn [send_loop]. destruct (iteration_aims port ip p net) as [H1 H2].
  destruct (step port ip p net) as [done c]. simpl in H1, H2.
  destruct c.
  - destruct (loop port ip rest) as [later c']. simpl in *.
    rewrite filter_app, length_app. split; [now apply Forall_app|lia].
  - simpl. split; [exact H1|lia].
Qed.

(** X7. With a port outside 1..65535 the pump never calls [socket.send],
    whatever it is asked to send. *)
Theorem invalid_port_never_sends (port : Z) (ip : string)
        (inputs : list (PromptOutcome * option string)) :
  (port < 1 \/ 65535 < port)%Z ->
  filter is_send (fst (loop port ip inputs)) = [].
Proof.
  intros Hport.
  assert (Hp : ((port <? 1) || (port >? 65535))%Z = true)
    by (apply orb_true_iff; destruct Hport; [left|right]; lia).
  assert (Hcatch : forall msg, filter is_send (fst (on_loop_error msg)) = []).
  { intros msg. unfold on_loop_error. now destruct (includes _ _). }
  assert (Hstep : forall p net, filter is_send (fst (step port ip p net)) = []).
  { intros p net. unfold iteration. destruct p as [input|msg]; [|apply Hcatch].
    destruct (is_quit _); [reflexivity|].
    destruct (negb _); [reflexivity|].
    destruct (is_empty _); [reflexivity|].
    destruct (parseInputValue _) as [value|msg]; [|reflexivity].
    destruct (toBuffer _ _) as [message|msg]; [|apply Hcatch].
    unfold sendMessage. rewrite Hp.
    specialize (Hcatch ("Invalid port number: " ++ show_port port)).
    now destruct (on_loop_error _). }
  induction inputs as [|[p net] rest IH]; [reflexivity|].
  cbn [send_loop]. specialize (Hstep p net).
  destruct (step port ip p net) as [done c]. simpl in Hstep.
  destruct c; [|exact Hstep].
  destruct (loop port ip rest) as [later c']. simpl in *.
  now rewrite filter_app, Hstep, IH.
Qed.

(** X8. The quit words are read in any letter case and with white space
    around them: the pump then says goodbye, closes the socket and exits,
    and the commands behind are never read. *)
Theorem quit_in_any_case (port : Z) (ip lead word trail : string)
        (net : option string) (rest : list (PromptOutcome * option string)) :
  all_chars is_ws lead = true -> all_chars is_ws trail = true ->
  toLowerCase word = "q" \/ toLowerCase word = "quit"
  \/ toLowerCase word = "exit" ->
  loop port ip ((Answer (lead ++ word ++ trail), net) :: rest)
  = ([ConsoleLog (nl ++ "Goodbye!"); SocketClose; ProcessExit 0], Exit).
Proof.
  intros Hl Ht Hw.
  assert (Hq : is_quit word = true).
  { unfold is_quit. destruct Hw as [-> | [-> | ->]]; reflexivity. }
  cbn [send_loop]. unfold iteration.
  now rewrite (trim_padded_token _ _ _ Hl (quit_word_is_token _ Hq) Ht), Hq.
Qed.

Lemma iteration_exit (port : Z) (ip : string) (p : PromptOutcome)
      (net : option string) :
  match snd (step port ip p net) with
  | Continue =>
      filter is_exit (fst (step port ip p net)) = []
      /\ filter is_close (fst (step port ip p net)) = []
  | Exit =>
      exists before,
        fst (step port ip p net) = (before ++ [ProcessExit 0])%list
        /\ filter is_exit before = []
  end.
Proof.
  assert (Hcatch : forall msg before,
             filter is_exit before = [] -> filter is_close before = [] ->
             match snd (on_loop_error msg) with
             | Continue =>
                 filter is_exit (before ++ fst (on_loop_error msg)) = []
                 /\ filter is_close (before ++ fst (on_loop_error msg)) = []
             | Exit =>
                 exists b,
                   (before ++ fst (on_loop_error msg))%list
                   = (b ++ [ProcessExit 0])%list
                   /\ filter is_exit b = []
             end).
  { intros msg before H1 H2. unfold on_loop_error.
    destruct (includes _ _); simpl.
    - exists (before ++ [ConsoleLog (nl ++ "Goodbye!")])%list.
      rewrite <- app_assoc, filter_app, H1. now split.
    - rewrite !filter_app, H1, H2. now split. }
  unfold iteration. destruct p as [input|msg].
  2:{ exact (Hcatch msg [] eq_refl eq_refl). }
  destruct (is_quit _).
  { simpl. now exists [ConsoleLog (nl ++ "Goodbye!"); SocketClose]. }
  destruct (negb _); [now split|].
  destruct (is_empty _); [now split|].
  destruct (parseInputValue _) as [value|msg]; [|now split].
  destruct (toBuffer _ _) as [message|msg].
  2:{ exact (Hcatch msg [] eq_refl eq_refl). }
  unfold sendMessage. destruct (_ || _)%bool.
  - specialize (Hcatch ("Invalid port number: " ++ show_port port) []
                       eq_refl eq_refl).
    now destruct (on_loop_error _).
  - destruct net as [msg|]; [|now split].
    specialize (Hcatch msg [SocketSend message port ip] eq_refl eq_refl).
    now destruct (on_loop_error msg).
Qed.

(** X9. The pump ends only by exiting the process, and exits at most once
    and last: a run that goes on has neither exited nor closed its socket,
    and a run that has ended shows the exit as its last effect and nowhere
    before. *)
Theorem exit_is_last (port : Z) (ip : string)
        (inputs : list (PromptOutcome * option string)) :
  match snd (loop port ip inputs) with
  | Continue =>
      filter is_exit (fst (loop port ip inputs)) = []
      /\ filter is_close (fst (loop port ip inputs)) = []
  | Exit =>
      exists before,
        fst (loop port ip inputs) = (before ++ [ProcessExit 0])%list
        /\ filter is_exit before = []
  end.
Proof.
  induction inputs as [|[p net] rest IH]; [now split|].
  cbn [send_loop]. pose proof (iteration_exit port ip p net) as Hs.
  destruct (step port ip p net) as [done c]. simpl in Hs.
  destruct c; [|exact Hs]. destruct Hs as [Hs1 Hs2].
  destruct (loop port ip rest) as [later c']. simpl in *.
  destruct c'.
  - destruct IH as [IH1 IH2]. rewrite !filter_app, Hs1, Hs2, IH1, IH2. now split.
  - destruct IH as (before & -> & Hb). exists (done ++ before)%list.
    rewrite app_assoc, filter_app, Hs1, Hb. now split.
Qed.

End MoreSendPumpFacts.

Lemma invalid_port_never_sends_witness :
  filter is_send
         (fst (send_loop address_only no_digits 70000 "127.0.0.1"
                         [(Answer "/a 1", None); (Answer "/b 2", None)]))
  = [].
Proof.
  apply (invalid_port_never_sends address_only no_digits 70000 "127.0.0.1").
  right. lia.
Defined.

Lemma quit_in_any_case_witness :
  send_loop address_only no_digits 9000 "127.0.0.1"
            [(Answer "  QuIt ", None); (Answer "/b 2", None)]
  = ([ConsoleLog (nl ++ "Goodbye!"); SocketClose; ProcessExit 0], Exit).
Proof.
  apply (quit_in_any_case address_only no_digits 9000 "127.0.0.1"
           "  " "QuIt" " " None [(Answer "/b 2", None)]);
    [reflexivity | reflexivity | right; left; reflexivity].
Defined.

(** ** The validation of the command prompt and the loop *)

Lemma validated_is_quit_or_slash (input : string) :
  command_validate input = Valid ->
  is_quit (trim input) = true
  \/ startsWith (command_address (trim input)) "/" = true.
Proof.
  unfold command_validate. destruct (_ || _); [discriminate|].
  fold (is_quit (trim input)). destruct (is_quit (trim input)); [now left|].
  destruct (_ <? _)%nat; [discriminate|]. fold (command_address (trim input)).
  destruct (startsWith _ _); [now right|discriminate].
Qed.

(** X10. The loop never has to refuse the address of a line the prompt has
    validated: such a line is a quit word or starts with a slash, so the pass
    does not print that the address must start with a slash; and a line the
    prompt refuses for its address is refused the same way by the loop. *)
Theorem validated_address_is_accepted
        (toBuffer : string -> list ParsedValue -> result (list byte))
        (numberToString : number -> string)
        (port : Z) (ip input : string) (net : option string) :
  (command_validate input = Valid ->
   ~ In (ConsoleError "OSC address must start with /")
        (fst (iteration toBuffer numberToString port ip (Answer input) net)))
  /\ (command_validate input = Invalid "OSC address must start with /" ->
      iteration toBuffer numberToString port ip (Answer input) net
      = ([ConsoleError "OSC address must start with /"], Continue)).
Proof.
  split.
  - intros Hv%validated_is_quit_or_slash. unfold iteration.
    assert (Hcatch : forall msg,
               ~ In (ConsoleError "OSC address must start with /")
                    (fst (on_loop_error msg))).
    { intros msg. unfold on_loop_error. destruct (includes _ _); simpl;
        intuition discriminate. }
    destruct (is_quit (trim input)) eqn:Hq.
    { simpl. intuition discriminate. }
    destruct Hv as [Hv|Hv]; [discriminate|]. rewrite Hv. cbn [negb].
    destruct (is_empty _); [simpl; intuition discriminate|].
    destruct (parseInputValue _) as [value|msg];
      [|simpl; intuition discriminate].
    destruct (toBuffer _ _) as [message|msg]; [|apply Hcatch].
    unfold sendMessage. destruct (_ || _)%bool.
    + specialize (Hcatch ("Invalid port number: " ++ show_port port)).
      now destruct (on_loop_error _).
    + destruct net as [msg|].
      * specialize (Hcatch msg). destruct (on_loop_error msg) as [shown c].
        simpl in *. intros [H|H]; [discriminate H|now apply Hcatch].
      * simpl. intuition discriminate.
  - unfold command_validate, iteration. destruct (_ || _); [discriminate|].
    fold (is_quit (trim input)). destruct (is_quit (trim input)); [discriminate|].
    destruct (_ <? _)%nat; [discriminate|]. fold (command_address (trim input)).
    now destruct (startsWith _ _).
Qed.

Lemma validated_address_is_accepted_witness :
  iteration address_only no_digits 9000 "127.0.0.1" (Answer "a 1") None
  = ([ConsoleError "OSC address must start with /"], Continue).
Proof.
  apply (validated_address_is_accepted address_only no_digits 9000 "127.0.0.1"
           "a 1" None). reflexivity.
Defined.

(** X11. The prompt validates the address only: a line made of an address
    alone passes the validation, and the loop then refuses it for its missing
    value without sending. *)
Theorem address_alone_is_validated_then_refused
        (toBuffer : string -> list ParsedValue -> result (list byte))
        (numberToString : number -> string)
        (port : Z) (ip address : string) (net : option string) :
  is_token address = true -> startsWith address "/" = true ->
  command_validate address = Valid
  /\ iteration toBuffer numberToString port ip (Answer address) net
     = ([ConsoleError "Please provide a value"], Continue).
Proof.
  intros Ha Hs.
  destruct (command_parts address [] Hs Ha eq_refl) as (Hq & Hadr & Hval).
  simpl in Hq, Hadr, Hval. rewrite append_nil_r in Hq, Hadr, Hval.
  assert (Ht : trim address = address).
  { pose proof (trim_line address [] Ha eq_refl) as H. simpl in H.
    now rewrite append_nil_r in H. }
  split.
  - unfold command_validate. rewrite Ht.
    destruct address as [|c r]; [discriminate|]. cbn [is_empty orb].
    rewrite Ht in Hq, Hadr. fold (is_quit (String c r)). rewrite Hq.
    fold (command_address (String c r)). rewrite Hadr, Hs.
    unfold split_ws. destruct (split_ws_aux _ _ _) eqn:E; [|reflexivity].
    unfold command_address, split_ws in Hadr. rewrite E in Hadr. discriminate Hadr.
  - unfold iteration. now rewrite Hq, Hadr, Hs, Hval.
Qed.

Lemma address_alone_is_validated_then_refused_witness :
  command_validate "/light/1" = Valid
  /\ iteration address_only no_digits 9000 "127.0.0.1" (Answer "/light/1") None
     = ([ConsoleError "Please provide a value"], Continue).
Proof.
  apply (address_alone_is_validated_then_refused address_only no_digits 9000
           "127.0.0.1" "/light/1" None); reflexivity.
Defined.

(** ** The life of the monitor *)

Section MonitorLife.

Variable fromBuffer : list byte -> result OscMessage.
Variable numberToString : number -> string.
Variable bufferToString : list byte -> string.

Local Abbreviation step := (monitor_step fromBuffer numberToString bufferToString).
Local Abbreviation run := (monitor_run fromBuffer numberToString bufferToString).

Lemma start_consistent (port : Z) (trace : option string)
      (bind_throws : option Error) :
  consistent (fst (monitor_start port trace bind_throws)).
Proof.
  unfold monitor_start, createUdpSocket.
  destruct (port_invalid port); [reflexivity|].
  destruct bind_throws; [reflexivity|]. now split.
Qed.

Lemma step_consistent (port : Z) (m : Monitor) (ev : SocketEvent) :
  consistent m -> consistent (fst (step port m ev)).
Proof.
  destruct m as [o c r]. unfold consistent, monitor_step.
  destruct o, c, r, ev; cbn; intuition congruence.
Qed.

Lemma run_consistent (port : Z) (m : Monitor) (evs : list SocketEvent) :
  consistent m -> consistent (fst (run port m evs)).
Proof.
  revert m. induction evs as [|ev r IH]; intros m H; [exact H|].
  cbn [monitor_run]. pose proof (step_consistent port m ev H) as Hs.
  destruct (step port m ev) as [m1 out1]. specialize (IH m1 Hs).
  now destruct (run port m1 r).
Qed.

(** X12. Whatever the port, the outcome of the bind and the events of the
    socket: a monitor whose promise is rejected holds no open socket, a
    monitor that listens has fulfilled its promise, and a promise still
    pending means a socket that is open and has not listened yet. *)
Theorem monitor_is_consistent (port : Z) (trace : option string)
        (bind_throws : option Error) (evs : list SocketEvent) :
  let m := fst (run port (fst (monitor_start port trace bind_throws)) evs) in
  (forall err, returned m = Rejected err -> socket_open m = false)
  /\ (listening m = true -> returned m = Fulfilled)
  /\ (returned m = Pending -> created m = Pending /\ socket_open m = true).
Proof.
  intros m.
  assert (H : consistent m)
    by (apply run_consistent, start_consistent).
  unfold consistent in H. split; [|split].
  - intros err Hr. now rewrite Hr in H.
  - intros [Ho Hf]%andb_true_iff. destruct (returned m) eqn:Hr.
    + destruct H as [Hc _]. now rewrite Hc in Hf.
    + reflexivity.
    + congruence.
  - intros Hr. now rewrite Hr in H.
Qed.

Lemma notice_is_console_only (n : Notice) :
  filter is_send (render_notice n) = []
  /\ filter is_exit (render_notice n) = []
  /\ filter is_close (render_notice n) = [].
Proof. now destruct n. Qed.

Lemma error_closes_once (err : Error) :
  filter is_send (on_error_createSocket err) = []
  /\ filter is_exit (on_error_createSocket err) = []
  /\ filter is_close (on_error_createSocket err) = [SocketClose].
Proof.
  unfold on_error_createSocket.
  destruct (stack err) as [t|]; [destruct (is_empty t)|]; now repeat split.
Qed.

Lemma step_effects (port : Z) (m : Monitor) (ev : SocketEvent) :
  filter is_send (snd (step port m ev)) = []
  /\ filter is_exit (snd (step port m ev)) = []
  /\ (List.length (filter is_close (snd (step port m ev)))
      + (if socket_open (fst (step port m ev)) then 1 else 0)
      <= (if socket_open m then 1 else 0))%nat.
Proof.
  destruct m as [o c r]. unfold monitor_step. cbn [socket_open created].
  destruct o; cbn [negb]; [|now repeat split].
  destruct ev as [|buffer|err].
  - destruct (is_pending c); cbn; repeat split; lia.
  - destruct (is_fulfilled c); cbn [fst snd socket_open].
    + destruct (notice_is_console_only
                  (on_message fromBuffer numberToString bufferToString port buffer))
        as (-> & -> & ->). repeat split. simpl. lia.
    + repeat split. simpl. lia.
  - cbn [fst snd socket_open].
    destruct (error_closes_once err) as (H1 & H2 & H3).
    rewrite !filter_app, H1, H2, H3.
    destruct (is_pending c), (is_fulfilled c);
      repeat split; simpl; lia.
Qed.

Lemma run_effects (port : Z) (m : Monitor) (evs : list SocketEvent) :
  filter is_send (snd (run port m evs)) = []
  /\ filter is_exit (snd (run port m evs)) = []
  /\ (List.length (filter is_close (snd (run port m evs)))
      <= (if socket_open m then 1 else 0))%nat.
Proof.
  revert m. induction evs as [|ev r IH]; intros m.
  - simpl. repeat split. destruct (socket_open m); lia.
  - cbn [monitor_run]. destruct (step_effects port m ev) as (H1 & H2 & H3).
    destruct (step port m ev) as [m1 out1]. cbn [fst snd] in *.
    destruct (IH m1) as (I1 & I2 & I3).
    destruct (run port m1 r) as [m2 out2]. cbn [fst snd] in *.
    rewrite !filter_app, H1, H2, I1, I2, length_app. repeat split.
    destruct (socket_open m1), (socket_open m); lia.
Qed.

(** X13. The monitor only listens: from its start on and whatever it
    receives, it never sends a datagram and never exits the process, and it
    closes its socket at most once. *)
Theorem monitor_only_listens (port : Z) (trace : option string)
        (bind_throws : option Error) (evs : list SocketEvent) :
  let started := monitor_start port trace bind_throws in
  let effects := (snd started ++ snd (run port (fst started) evs))%list in
  filter is_send effects = []
  /\ filter is_exit effects = []
  /\ (List.length (filter is_close effects) <= 1)%nat.
Proof.
  intros started effects. unfold effects.
  destruct (run_effects port (fst started) evs) as (H1 & H2 & H3).
  rewrite !filter_app, H1, H2, length_app.
  unfold started, monitor_start, createUdpSocket in *.
  destruct (port_invalid port); [simpl in *; repeat split; lia|].
  destruct bind_throws; simpl in *; repeat split; lia.
Qed.

End MonitorLife.

Lemma monitor_is_consistent_witness :
  socket_open
    (fst (monitor_run sample_decoder no_digits sample_text 9000
                      (fst (monitor_start 9000 None None))
                      [OnError (mkError "bind EADDRINUSE" None)]))
  = false.
Proof.
  apply (proj1 (monitor_is_consistent sample_decoder no_digits sample_text
                  9000 None None [OnError (mkError "bind EADDRINUSE" None)])
               (mkError "bind EADDRINUSE" None)).
  reflexivity.
Defined.

(** ** Ports and targets of the command line *)

Lemma digits_val_from_acc (d : Decimal.uint) (acc : positive) :
  digits_val_from (Npos acc) (NilEmpty.string_of_uint d)
  = Npos (Pos.of_uint_acc d acc).
Proof.
  revert acc. induction d; intros acc; cbn [NilEmpty.string_of_uint
    digits_val_from Pos.of_uint_acc]; [reflexivity| ..];
    rewrite <- IHd; f_equal; unfold digit_val, code;
    match goal with |- context [N_of_ascii ?c] =>
      let v := eval vm_compute in (N_of_ascii c) in
      change (N_of_ascii c) with v end; lia.
Qed.

Lemma digits_val_of_uint (d : Decimal.uint) :
  digits_val_from 0 (NilEmpty.string_of_uint d) = Pos.of_uint d.
Proof.
  induction d; cbn [NilEmpty.string_of_uint digits_val_from Pos.of_uint];
    [reflexivity | exact IHd | ..];
    apply (digits_val_from_acc d).
Qed.

Lemma uint_string_is_digits (d : Decimal.uint) :
  all_chars is_digit (NilEmpty.string_of_uint d) = true.
Proof. induction d; simpl; auto. Qed.

(** Printing a positive number and reading it back. *)
Lemma show_positive (p : positive) :
  exists d r, show_port (Zpos p) = String d r
              /\ all_chars is_digit (String d r) = true
              /\ digits_val (String d r) = Npos p.
Proof.
  unfold show_port. cbn [Z.to_int NilZero.string_of_int].
  pose proof (DecimalPos.Unsigned.to_uint_nonnil p) as Hnil.
  pose proof (DecimalPos.Unsigned.of_to p) as Hof.
  pose proof (uint_string_is_digits (Pos.to_uint p)) as Hd.
  pose proof (digits_val_of_uint (Pos.to_uint p)) as Hv.
  destruct (Pos.to_uint p) eqn:E; [now elim Hnil| ..];
    eexists; eexists; (split; [reflexivity|]); split;
      solve [exact Hd | unfold digits_val; rewrite <- Hof; exact Hv].
Qed.

Lemma parseInt10_show (p : positive) :
  (Zpos p < 2 ^ 53)%Z -> parseInt10 (show_port (Zpos p)) = of_int (Zpos p).
Proof.
  intros Hp. destruct (show_positive p) as (d & r & -> & Hd & Hv).
  rewrite <- (append_nil_r (String d r)).
  rewrite (parseInt10_digits (String d r) "" eq_refl Hd eq_refl), Hv.
  apply round64_small_integer. change (2 ^ 53)%Z with (Z.of_N (2 ^ 53)) in Hp.
  lia.
Qed.

Lemma decimal_integer (n : N) : (decimal n 0 == inject_Z (Z.of_N n))%Q.
Proof.
  unfold decimal. cbn [Z.leb Z.compare]. rewrite Qred_correct.
  unfold inject_Z, Qeq. simpl. lia.
Qed.

(** The range test on an integer lets through the integers of 1..65535. *)
Lemma integer_in_range (neg : bool) (n : N) :
  port_out_of_range (Fin neg (decimal n 0)) = false <->
  neg = false /\ (1 <= Z.of_N n <= 65535)%Z.
Proof.
  unfold port_out_of_range, num_ltb, of_int. cbn [isNaN orb Z.ltb Z.compare].
  rewrite orb_false_iff, !negb_false_iff, !Qle_bool_iff.
  change (decimal (Z.abs_N 1) 0) with (inject_Z 1).
  change (decimal (Z.abs_N 65535) 0) with (inject_Z 65535).
  cbn [value_of].
  destruct neg; cbn [value_of]; rewrite decimal_integer;
    unfold Qle, Qopp, inject_Z; simpl; split; intros H;
    try (split; [reflexivity|]); lia.
Qed.

Lemma parseInt10_is_integer (s : string) :
  parseInt10 s = NaN
  \/ exists neg n, parseInt10 s = round64 neg (decimal n 0).
Proof.
  unfold parseInt10. destruct (read_sign _) as [neg r].
  destruct (span is_digit r) as [ds rest].
  destruct (is_empty ds); [now left | right; eauto].
Qed.

(** An integer of [2^53] or more, rounded, is out of the range of a port. *)
Lemma big_is_out_of_range (neg : bool) (n : N) :
  (2 ^ 53 <= n)%N -> port_out_of_range (round64 neg (decimal n 0)) = true.
Proof.
  intros Hn. rewrite decimal_of_integer.
  assert (Hz : (2 ^ 53 <= Z.of_N n)%Z)
    by (change (2 ^ 53)%Z with (Z.of_N (2 ^ 53)); lia).
  destruct (round64_big neg (Z.of_N n) Hz) as [[-> | (q & -> & Hq)] _].
  - now destruct neg.
  - unfold port_out_of_range, num_ltb, of_int.
    cbn [isNaN orb Z.ltb Z.compare].
    change (decimal (Z.abs_N 1) 0) with (inject_Z 1).
    change (decimal (Z.abs_N 65535) 0) with (inject_Z 65535).
    apply orb_true_iff. destruct neg; [left | right]; cbn [value_of];
      apply negb_true_iff;
      match goal with |- Qle_bool ?a ?b = false =>
        destruct (Qle_bool a b) eqn:E; [|reflexivity];
        apply Qle_bool_iff in E end;
      exfalso; revert Hq E; unfold Qle, Qopp, inject_Z; cbn [Qnum Qden];
      intros Hq E;
      assert (H53 : (2 ^ 53 = 9007199254740992)%Z) by reflexivity;
      rewrite H53 in Hq; nia.
Qed.

Lemma in_range_is_port (x : number) :
  (exists neg n, x = round64 neg (decimal n 0)) \/ x = NaN ->
  port_out_of_range x = false ->
  exists z, x = of_int z /\ (1 <= z <= 65535)%Z.
Proof.
  intros [(neg & n & ->)| ->] H; [|discriminate H].
  destruct (N.lt_ge_cases n (2 ^ 53)) as [Hs|Hb].
  2:{ now rewrite (big_is_out_of_range neg n Hb) in H. }
  rewrite (round64_small_integer neg n Hs) in *.
  apply integer_in_range in H as [-> Hn].
  exists (Z.of_N n). split; [|exact Hn]. unfold of_int.
  replace (Z.of_N n <? 0)%Z with false by (symmetry; apply Z.ltb_ge; lia).
  now rewrite Zabs2N.id.
Qed.

(** X14. A target that is accepted carries a port that is an integer of
    1..65535. *)
Theorem target_port_in_range (target : string) (t : Target) :
  parseAddressPort target = Some t ->
  exists z, target_port t = of_int z /\ (1 <= z <= 65535)%Z.
Proof.
  unfold parseAddressPort.
  destruct (split_on ":" target) as [|a [|p [|x l]]]; try discriminate.
  - destruct (port_out_of_range (parseInt10 a)) eqn:E; [discriminate|].
    intros [= <-]. cbn [target_port]. apply in_range_is_port; [|exact E].
    destruct (parseInt10_is_integer a); auto.
  - destruct (port_out_of_range (parseInt10 p)) eqn:E; [discriminate|].
    intros [= <-]. cbn [target_port]. apply in_range_is_port; [|exact E].
    destruct (parseInt10_is_integer p); auto.
Qed.

Lemma target_port_in_range_witness :
  exists z, target_port (mkTarget "127.0.0.1" (of_int 9000)) = of_int z
            /\ (1 <= z <= 65535)%Z.
Proof. apply (target_port_in_range "127.0.0.1:9000"). reflexivity. Defined.

Lemma split_on_plain (w cur rest : string) :
  contains_char is_colon w = false ->
  split_on_aux ":" cur (w ++ rest) = split_on_aux ":" (cur ++ w) rest.
Proof.
  revert cur. induction w as [|c w IH]; intros cur Hw; simpl in *.
  - now rewrite append_nil_r.
  - apply orb_false_iff in Hw as [Hc Hw]. unfold is_colon in Hc.
    rewrite Hc, (IH _ Hw), append_assoc. reflexivity.
Qed.

Lemma split_on_single (w : string) :
  contains_char is_colon w = false -> split_on ":" w = [w].
Proof.
  intros Hw. unfold split_on. rewrite <- (append_nil_r w) at 1.
  now rewrite (split_on_plain _ _ _ Hw).
Qed.

Lemma split_on_pair (a p : string) :
  contains_char is_colon a = false -> contains_char is_colon p = false ->
  split_on ":" (a ++ ":" ++ p) = [a; p].
Proof.
  intros Ha Hp. unfold split_on. rewrite (split_on_plain _ _ _ Ha).
  pose proof (split_on_single p Hp) as H. unfold split_on in H.
  simpl. now rewrite H.
Qed.

Lemma digit_is_no_colon (c : ascii) : is_digit c = true -> is_colon c = false.
Proof.
  destruct c as [[] [] [] [] [] [] [] []]; intros H;
    solve [discriminate H | reflexivity].
Qed.

Lemma digits_have_no_colon (ds : string) :
  all_chars is_digit ds = true -> contains_char is_colon ds = false.
Proof.
  induction ds as [|c ds IH]; simpl; [reflexivity|].
  intros [Hc Hds]%andb_true_iff. now rewrite (digit_is_no_colon _ Hc), IH.
Qed.

Lemma show_port_in_range (p : Z) :
  (1 <= p <= 65535)%Z ->
  contains_char is_colon (show_port p) = false
  /\ parseInt10 (show_port p) = of_int p
  /\ port_out_of_range (of_int p) = false.
Proof.
  intros Hp. destruct p as [|q|q]; try lia.
  destruct (show_positive q) as (d & r & E & Hd & _). split; [|split].
  - rewrite E. now apply digits_have_no_colon.
  - apply parseInt10_show. apply Z.le_lt_trans with 65535%Z; [lia|reflexivity].
  - apply (integer_in_range false (Npos q)). split; [reflexivity|]. simpl. lia.
Qed.

(** X15. Round trip of a target: an address without colon, a colon and a
    port of 1..65535 in decimal are read back as that address and that port;
    the port alone is read as that port on the address 0.0.0.0. *)
Theorem target_round_trip (address : string) (p : Z) :
  contains_char is_colon address = false -> (1 <= p <= 65535)%Z ->
  parseAddressPort (address ++ ":" ++ show_port p)
  = Some (mkTarget address (of_int p))
  /\ parseAddressPort (show_port p) = Some (mkTarget "0.0.0.0" (of_int p)).
Proof.
  intros Ha Hp. destruct (show_port_in_range p Hp) as (Hc & Hi & Hr).
  unfold parseAddressPort. split.
  - now rewrite (split_on_pair _ _ Ha Hc), Hi, Hr.
  - now rewrite (split_on_single _ Hc), Hi, Hr.
Qed.

Lemma target_round_trip_witness :
  parseAddressPort ("127.0.0.1" ++ ":" ++ show_port 9000)
  = Some (mkTarget "127.0.0.1" (of_int 9000)).
Proof. apply (target_round_trip "127.0.0.1" 9000); [reflexivity | lia]. Defined.

Lemma split_on_length (cur s : string) :
  List.length (split_on_aux ":" cur s) = S (count_char is_colon s).
Proof.
  revert cur. induction s as [|c s IH]; intros cur; simpl; [reflexivity|].
  unfold is_colon at 1. destruct (Ascii.eqb c ":"); simpl; now rewrite IH.
Qed.

(** X16. A target with two colons or more is refused; an IPv6 address
    cannot be given this way. *)
Theorem target_with_two_colons_refused (target : string) :
  2 <= count_char is_colon target -> parseAddressPort target = None.
Proof.
  intros H. unfold parseAddressPort.
  pose proof (split_on_length "" target) as Hl. fold (split_on ":" target) in Hl.
  destruct (split_on ":" target) as [|a [|p [|x l]]]; simpl in Hl;
    solve [reflexivity | lia].
Qed.

Lemma target_with_two_colons_refused_witness :
  parseAddressPort "::1:9000" = None.
Proof. apply target_with_two_colons_refused. simpl. lia. Defined.

(** X17. The two callbacks of a port prompt agree: the filter returns a
    port exactly when the validation accepts the text, and the port it
    returns is an integer of 1..65535. *)
Theorem port_prompt_agrees (value : string) :
  (port_validate value = Valid <-> exists n, port_filter value = Ok n)
  /\ (forall n, port_filter value = Ok n ->
                exists z, n = of_int z /\ (1 <= z <= 65535)%Z).
Proof.
  unfold port_validate, port_filter, port_out_of_range. split.
  - destruct (isNaN (parseInt10 value)); cbn [orb].
    + split; [discriminate | now intros [n H]].
    + destruct (_ || _); split; try discriminate; eauto. now intros [n H].
  - intros n. destruct (_ || _ || _) eqn:E; [discriminate|]. intros [= <-].
    apply in_range_is_port; [|exact E].
    destruct (parseInt10_is_integer value); auto.
Qed.

Lemma port_prompt_agrees_witness :
  exists z, of_int 8888 = of_int z /\ (1 <= z <= 65535)%Z.
Proof. apply (proj2 (port_prompt_agrees "8888")). reflexivity. Defined.

(** ** The validation of the receiver address *)

Lemma dot_char (c : ascii) : is_dot c = true -> c = "."%char.
Proof.
  unfold is_dot, code. intros H%N.eqb_eq.
  now rewrite <- (ascii_N_embedding c), H.
Qed.

Ltac to_codes :=
  unfold in_range, is_char, is_digit in *;
  repeat match goal with
    | H : (_ && _)%bool = true |- _ => apply andb_true_iff in H as [? ?]
    | H : (_ <=? _)%N = true |- _ => apply N.leb_le in H
    | H : (_ =? _)%N = true |- _ => apply N.eqb_eq in H
    end.

Lemma octet_text_1 (c1 : ascii) :
  is_digit c1 = true -> is_octet_text (String c1 "") = true.
Proof.
  intros H. unfold is_octet_text, digits_val. cbn [is_empty negb all_chars
    length digits_val_from Nat.leb andb]. rewrite H. cbn [andb].
  apply N.leb_le. unfold digit_val. to_codes. lia.
Qed.

Lemma octet_text_2 (c1 c2 : ascii) :
  is_digit c1 = true -> is_digit c2 = true ->
  is_octet_text (String c1 (String c2 "")) = true.
Proof.
  intros H1 H2. unfold is_octet_text, digits_val. cbn [is_empty negb all_chars
    length digits_val_from Nat.leb andb]. rewrite H1, H2. cbn [andb].
  apply N.leb_le. unfold digit_val. to_codes. lia.
Qed.

Lemma octet_text_3 (c1 c2 c3 : ascii) :
  is_digit c1 = true -> is_digit c2 = true -> is_digit c3 = true ->
  (100 * digit_val c1 + 10 * digit_val c2 + digit_val c3 <= 255)%N ->
  is_octet_text (String c1 (String c2 (String c3 ""))) = true.
Proof.
  intros H1 H2 H3 Hv. unfold is_octet_text, digits_val.
  cbn [is_empty negb all_chars length digits_val_from Nat.leb andb].
  rewrite H1, H2, H3. cbn [andb]. apply N.leb_le. lia.
Qed.

(** What an octet of the expression reads is one to three digits that
    denote at most 255. *)
Lemma octet_sound (k : string -> bool) (s : string) :
  octet k s = true ->
  exists o rest, s = o ++ rest /\ is_octet_text o = true /\ k rest = true.
Proof.
  unfold octet, opt, one. intros H.
  apply orb_true_iff in H as [H|H]; [apply orb_true_iff in H as [H|H]|].
  - destruct s as [|c1 [|c2 [|c3 r]]]; rewrite ?andb_false_r in H;
      try discriminate.
    apply andb_true_iff in H as [H1 H]. apply andb_true_iff in H as [H2 H].
    apply andb_true_iff in H as [H3 Hk].
    exists (String c1 (String c2 (String c3 ""))), r.
    split; [reflexivity|]. split; [|exact Hk].
    apply octet_text_3; unfold digit_val; to_codes;
      try (apply andb_true_iff; split; apply N.leb_le); lia.
  - destruct s as [|c1 [|c2 [|c3 r]]]; rewrite ?andb_false_r in H;
      try discriminate.
    apply andb_true_iff in H as [H1 H]. apply andb_true_iff in H as [H2 H].
    apply andb_true_iff in H as [H3 Hk].
    exists (String c1 (String c2 (String c3 ""))), r.
    split; [reflexivity|]. split; [|exact Hk].
    apply octet_text_3; unfold digit_val; to_codes;
      try (apply andb_true_iff; split; apply N.leb_le); lia.
  - apply orb_true_iff in H as [H|H].
    + destruct s as [|c1 [|c2 r]]; rewrite ?andb_false_r in H; try discriminate.
      apply andb_true_iff in H as [H1 H]. apply andb_true_iff in H as [H2 H].
      apply orb_true_iff in H as [H|Hk].
      * destruct r as [|c3 r]; [discriminate|].
        apply andb_true_iff in H as [H3 Hk].
        exists (String c1 (String c2 (String c3 ""))), r.
        split; [reflexivity|]. split; [|exact Hk].
        apply octet_text_3; trivial; unfold digit_val; to_codes;
          try (apply andb_true_iff; split; apply N.leb_le); lia.
      * exists (String c1 (String c2 "")), r.
        split; [reflexivity|]. split; [|exact Hk].
        apply octet_text_2; trivial. to_codes.
        apply andb_true_iff; split; apply N.leb_le; lia.
    + destruct s as [|c1 r]; [discriminate|].
      apply andb_true_iff in H as [H1 H].
      apply orb_true_iff in H as [H|Hk].
      * destruct r as [|c2 r]; [discriminate|].
        apply andb_true_iff in H as [H2 Hk].
        exists (String c1 (String c2 "")), r.
        split; [reflexivity|]. split; [exact (octet_text_2 _ _ H1 H2)|exact Hk].
      * exists (String c1 ""), r.
        split; [reflexivity|]. split; [exact (octet_text_1 _ H1)|exact Hk].
Qed.

(** And an octet of the expression can read any such text. *)
Lemma octet_complete (k : string -> bool) (o rest : string) :
  is_octet_text o = true -> k rest = true -> octet k (o ++ rest) = true.
Proof.
  unfold is_octet_text. intros H Hk.
  apply andb_true_iff in H as [H Hv]. apply andb_true_iff in H as [H Hl].
  apply andb_true_iff in H as [Hne Hd].
  destruct o as [|c1 [|c2 [|c3 [|c4 o]]]]; try discriminate;
    cbn [all_chars] in Hd; cbn [append]; unfold octet.
  - apply andb_true_iff in Hd as [H1 _].
    apply orb_true_iff. right. unfold opt at 1. apply orb_true_iff. right.
    cbn [one]. rewrite H1. cbn [andb]. unfold opt. apply orb_true_iff. now right.
  - apply andb_true_iff in Hd as [H1 Hd]. apply andb_true_iff in Hd as [H2 _].
    apply orb_true_iff. right. unfold opt at 1. apply orb_true_iff. right.
    cbn [one]. rewrite H1. cbn [andb]. unfold opt. apply orb_true_iff. left.
    cbn [one]. now rewrite H2, Hk.
  - apply andb_true_iff in Hd as [H1 Hd]. apply andb_true_iff in Hd as [H2 Hd].
    apply andb_true_iff in Hd as [H3 _].
    apply N.leb_le in Hv. unfold digits_val in Hv.
    cbn [digits_val_from] in Hv. unfold digit_val in Hv.
    destruct (N.eqb_spec (code c1) 50) as [E1|E1].
    + destruct (N.eqb_spec (code c2) 53) as [E2|E2].
      * apply orb_true_iff. left. apply orb_true_iff. left. cbn [one].
        unfold is_char. rewrite E1, E2. cbn [N.eqb Pos.eqb andb]. rewrite Hk.
        rewrite andb_true_r. unfold in_range. to_codes.
        apply andb_true_iff; split; apply N.leb_le; lia.
      * apply orb_true_iff. left. apply orb_true_iff. right. cbn [one].
        unfold is_char. rewrite E1. cbn [N.eqb Pos.eqb andb]. rewrite H3, Hk.
        rewrite !andb_true_r. unfold in_range. to_codes.
        apply andb_true_iff; split; apply N.leb_le; lia.
    + apply orb_true_iff. right. unfold opt at 1. apply orb_true_iff. left.
      cbn [one]. rewrite H2. unfold opt. cbn [one]. rewrite H3, Hk.
      cbn [andb orb]. rewrite andb_true_r. unfold in_range. to_codes.
      apply andb_true_iff; split; apply N.leb_le; lia.
Qed.

Lemma one_dot (k : string -> bool) (s : string) :
  one is_dot k s = true -> exists r, s = "." ++ r /\ k r = true.
Proof.
  destruct s as [|c r]; [discriminate|]. cbn [one].
  intros [Hc Hk]%andb_true_iff. exists r. now rewrite (dot_char _ Hc).
Qed.

Lemma ipRegex_dotted (a b c d : string) :
  is_octet_text a = true -> is_octet_text b = true ->
  is_octet_text c = true -> is_octet_text d = true ->
  ipRegex (dotted a b c d) = true.
Proof.
  intros Ha Hb Hc Hd. unfold ipRegex, dotted.
  apply octet_complete; [exact Ha|]. cbn [append one is_dot code N_of_ascii].
  change (is_dot ".") with true. cbn [andb].
  apply octet_complete; [exact Hb|]. cbn [append one].
  change (is_dot ".") with true. cbn [andb].
  apply octet_complete; [exact Hc|]. cbn [append one].
  change (is_dot ".") with true. cbn [andb].
  rewrite <- (append_nil_r d). now apply octet_complete.
Qed.

Lemma ipRegex_shape (value : string) :
  ipRegex value = true ->
  exists a b c d,
    value = dotted a b c d
    /\ is_octet_text a = true /\ is_octet_text b = true
    /\ is_octet_text c = true /\ is_octet_text d = true.
Proof.
  unfold ipRegex. intros H.
  apply octet_sound in H as (a & r1 & -> & Ha & H).
  apply one_dot in H as (r1' & -> & H).
  apply octet_sound in H as (b & r2 & -> & Hb & H).
  apply one_dot in H as (r2' & -> & H).
  apply octet_sound in H as (c & r3 & -> & Hc & H).
  apply one_dot in H as (r3' & -> & H).
  apply octet_sound in H as (d & r4 & -> & Hd & H).
  destruct r4; [|discriminate]. rewrite append_nil_r.
  exists a, b, c, d. now repeat split.
Qed.

Lemma octet_text_starts_with_digit (o rest : string) :
  is_octet_text o = true ->
  exists c r, o ++ rest = String c r /\ is_digit c = true.
Proof.
  unfold is_octet_text. destruct o as [|c o]; [discriminate|]. simpl.
  intros H. apply andb_true_iff in H as [H _]. apply andb_true_iff in H as [H _].
  apply andb_true_iff in H as [H _]. eauto.
Qed.

(** X18. The prompt for the receiver address accepts exactly the text
    [localhost] and the texts made of four decimal numbers of one to three
    digits, each at most 255, with dots between them; any other host name,
    and an address with white space around it, is refused. *)
Theorem ip_validate_accepts (value : string) :
  ip_validate value = Valid <->
  value = "localhost"
  \/ exists a b c d,
       value = dotted a b c d
       /\ is_octet_text a = true /\ is_octet_text b = true
       /\ is_octet_text c = true /\ is_octet_text d = true.
Proof.
  unfold ip_validate. split.
  - destruct (_ || _); [discriminate|].
    destruct (ipRegex value) eqn:Hre.
    + intros _. right. now apply ipRegex_shape.
    + cbn [negb andb]. destruct (String.eqb_spec value "0.0.0.0") as [->|_].
      * discriminate Hre.
      * cbn [negb andb].
        destruct (String.eqb_spec value "localhost") as [->|_];
          [now left | discriminate].
  - intros [->|(a & b & c & d & -> & Ha & Hb & Hc & Hd)]; [reflexivity|].
    rewrite (ipRegex_dotted _ _ _ _ Ha Hb Hc Hd). cbn [negb andb].
    unfold dotted.
    destruct (octet_text_starts_with_digit
                a ("." ++ b ++ "." ++ c ++ "." ++ d) Ha) as (x & r & -> & Hx).
    destruct (digit_is_plain x Hx) as (Hws & _ & _).
    now rewrite (guard_nonempty x r Hws).
Qed.

Lemma ip_validate_accepts_witness :
  ip_validate (dotted "192" "168" "0" "1") = Valid.
Proof.
  apply (proj2 (ip_validate_accepts (dotted "192" "168" "0" "1"))).
  right. exists "192", "168", "0", "1". repeat split.
Defined.

(** ** The time stamp of a logged record *)

Lemma Z_range_forall (P : Z -> bool) (lo : Z) (len : nat) :
  forallb P (Z_range lo len) = true ->
  forall n, (lo <= n < lo + Z.of_nat len)%Z -> P n = true.
Proof.
  intros H n Hn. rewrite forallb_forall in H. apply H.
  unfold Z_range. apply in_map_iff. exists (Z.to_nat (n - lo)).
  split; [lia|]. apply in_seq. lia.
Qed.

Lemma two_digits_width (x : Z) :
  (0 <= x < 100)%Z -> length (two_digits x) = 2.
Proof.
  intros Hx.
  apply (Z_range_forall (fun n => Nat.eqb (length (two_digits n)) 2) 0 100)
    in Hx; [now apply Nat.eqb_eq|]. vm_compute. reflexivity.
Qed.

Lemma year_width (x : Z) :
  (1000 <= x < 10000)%Z -> length (show_port x) = 4.
Proof.
  intros Hx.
  apply (Z_range_forall (fun n => Nat.eqb (length (show_port n)) 4) 1000
                        (Z.to_nat 9000))
    in Hx; [now apply Nat.eqb_eq|]. vm_compute. reflexivity.
Qed.

Lemma microseconds_shape (ms : Z) :
  (0 <= ms < 1000)%Z ->
  microseconds ms = padStart0 (show_port ms) 3 ++ "000"
  /\ length (microseconds ms) = 6.
Proof.
  intros Hx.
  apply (Z_range_forall
           (fun n => String.eqb (microseconds n)
                                (padStart0 (show_port n) 3 ++ "000")
                     && Nat.eqb (length (microseconds n)) 6) 0 1000)
    in Hx; [|vm_compute; reflexivity].
  apply andb_true_iff in Hx as [H1 H2].
  split; [now apply String.eqb_eq | now apply Nat.eqb_eq].
Qed.

(** X19. The time stamp of a record has a fixed width: for a year of four
    digits and the month, day, hour, minute, second and millisecond of a
    date, it is 26 characters long, and its last field shows the
    milliseconds on three digits followed by three zeros. *)
Theorem timestamp_is_fixed_width (now : Instant) :
  (1000 <= t_year now < 10000)%Z -> (0 <= t_month now < 12)%Z ->
  (1 <= t_date now <= 31)%Z -> (0 <= t_hours now < 24)%Z ->
  (0 <= t_minutes now < 60)%Z -> (0 <= t_seconds now < 60)%Z ->
  (0 <= t_milliseconds now < 1000)%Z ->
  length (timestamp now) = 26
  /\ microseconds (t_milliseconds now)
     = padStart0 (show_port (t_milliseconds now)) 3 ++ "000".
Proof.
  intros Hy Hm Hd Hh Hmi Hs Hms.
  destruct (microseconds_shape _ Hms) as [Hshape Hlen].
  split; [|exact Hshape]. unfold timestamp.
  rewrite !length_append, Hlen, (year_width _ Hy).
  rewrite !two_digits_width by lia. reflexivity.
Qed.

Lemma timestamp_is_fixed_width_witness :
  length (timestamp (mkInstant 2024 0 5 9 3 7 42)) = 26.
Proof.
  apply (timestamp_is_fixed_width (mkInstant 2024 0 5 9 3 7 42)); simpl; lia.
Defined.
